(** * GIMPS-GPU: Lucas-Lehmer search for Mersenne primes

    A shallow embedding of [MERSENNE.py] (the multiprocessing variant) and
    [Mersenne_GPU.py] (the numba/CUDA variant), followed by the properties
    proved about them.

    Python integers are [Z].  Loops that the source bounds with [range]
    are structural; [while] loops carry a fuel argument and answer
    [OutOfFuel] when it is exhausted.  Exceptions are the [Raise] outcome. *)

From Bignums Require Import BigZ.
From Stdlib Require Import ZArith List Bool Lia Permutation Sorted Factorial.
Import ListNotations.
Local Open Scope Z_scope.

(** ** Outcomes of a Python call *)

Inductive exn : Type :=
| ValueError      (* negative shift count, Pool(processes < 1) *)
| CudaAPIError.   (* kernel launched on an empty grid *)

Inductive result (A : Type) : Type :=
| Done (a : A)
| Raise (e : exn)
| OutOfFuel.

Arguments Done {A} a.
Arguments Raise {A} e.
Arguments OutOfFuel {A}.

Definition bind {A B : Type} (c : result A) (k : A -> result B) : result B :=
  match c with
  | Done a => k a
  | Raise e => Raise e
  | OutOfFuel => OutOfFuel
  end.

Declare Scope py_scope.
Delimit Scope py_scope with py.
Notation "x <- c ;; k" := (bind c (fun x => k))
  (at level 61, c at next level, right associativity) : py_scope.
Local Open Scope py_scope.

(** ** Python primitives used by both files *)

(** [a << n] and [a >> n]: a negative count raises [ValueError]. *)
Definition py_shl (a n : Z) : result Z :=
  if n <? 0 then Raise ValueError else Done (Z.shiftl a n).

Definition py_shr (a n : Z) : result Z :=
  if n <? 0 then Raise ValueError else Done (Z.shiftr a n).

(** [x in xs] on a list of integers. *)
Definition py_in (x : Z) (xs : list Z) : bool := existsb (Z.eqb x) xs.

(** [for _ in range(n): s = body(s)] *)
Fixpoint for_range {S : Type} (n : nat) (body : S -> S) (s : S) : S :=
  match n with
  | O => s
  | S n' => for_range n' body (body s)
  end.

(** [(1 << p) - 1] *)
Definition mersenne (p : Z) : result Z :=
  m <- py_shl 1 p ;; Done (m - 1).

(** ** [multiprocessing.Pool.map]

    The pool hands every task to some worker; the results come back in an
    order [finish] that depends on the workers (a list of task indices in
    order of completion) and are stored at the index of their task.  A
    result that never arrives leaves [map] blocked; an exception of a
    worker is raised again by [map]. *)

Section Pool.
Context {A B : Type}.

Definition arrivals (finish : list nat) (f : A -> result B) (xs : list A)
  : list (nat * result B) :=
  flat_map (fun i => match nth_error xs i with
                     | Some x => [(i, f x)]
                     | None => []
                     end) finish.

Definition slot (arrived : list (nat * result B)) (i : nat) : result B :=
  match find (fun a => Nat.eqb (fst a) i) arrived with
  | Some a => snd a
  | None => OutOfFuel
  end.

Fixpoint collect (rs : list (result B)) : result (list B) :=
  match rs with
  | [] => Done []
  | r :: rs' => b <- r ;; bs <- collect rs' ;; Done (b :: bs)
  end.

Definition pool_map (finish : list nat) (f : A -> result B) (xs : list A)
  : result (list B) :=
  collect (map (slot (arrivals finish f xs)) (seq 0 (length xs))).

End Pool.

(** ** MERSENNE.py *)

Module MERSENNE.

(** [while i * i <= n: ...; i += 6] of [is_prime]. *)
Fixpoint is_prime_loop (fuel : nat) (n i : Z) : result bool :=
  match fuel with
  | O => OutOfFuel
  | S fuel' =>
      if i * i <=? n then
        if (n mod i =? 0) || (n mod (i + 2) =? 0) then Done false
        else is_prime_loop fuel' n (i + 6)
      else Done true
  end.

Definition is_prime_run (fuel : nat) (n : Z) : result bool :=
  if n <=? 1 then Done false
  else if n <=? 3 then Done true
  else if (n mod 2 =? 0) || (n mod 3 =? 0) then Done false
  else is_prime_loop fuel n 5.

(** The loop of [is_prime] runs fewer than [n] times ([is_prime_run_total]
    below), so [is_prime] is a total boolean function. *)
Definition is_prime (n : Z) : bool :=
  match is_prime_run (Z.to_nat n) n with
  | Done b => b
  | _ => false
  end.

Section WithEnvironment.

(** Whether [import gmpy2] succeeded, [multiprocessing.cpu_count()], and
    the external oracle [gmpy2.is_prime]. *)
Variable has_gmpy2 : bool.
Variable cpu_count : Z.
Variable gmpy2_is_prime : Z -> bool.

(** Body of the Lucas-Lehmer loop: both branches of [if has_gmpy2] hold
    the same expression on Python integers.  The loop runs only for
    [p >= 3], where [M >= 7], so [%] never divides by zero. *)
Definition ll_body (M s : Z) : Z :=
  if has_gmpy2 then (s * s - 2) mod M else (s * s - 2) mod M.

(** Value of [s] when the loop of [lucas_lehmer_test] is left. *)
Definition ll_residue (M p : Z) : Z :=
  for_range (Z.to_nat (p - 2)) (ll_body M) 4.

Definition lucas_lehmer_test (p : Z) : result bool :=
  if p =? 2 then Done true
  else
    M <- mersenne p ;;
    Done (ll_residue M p =? 0).

Definition lucas_lehmer_test_multiprocessing (p : Z) : result (Z * bool) :=
  r <- lucas_lehmer_test p ;; Done (p, r).

Definition is_mersenne_prime (p : Z) : result bool :=
  if negb (is_prime p) then Done false else lucas_lehmer_test p.

Definition verify_mersenne_prime (p : Z) : result bool :=
  mersenne_candidate <- mersenne p ;;
  if has_gmpy2 && (p <? 100) then Done (gmpy2_is_prime mersenne_candidate)
  else Done true.

(** [while p in known_exponents or not is_prime(p): p += 2] *)
Fixpoint next_candidate (fuel : nat) (known_exponents : list Z) (p : Z)
  : result Z :=
  match fuel with
  | O => OutOfFuel
  | S fuel' =>
      if py_in p known_exponents || negb (is_prime p)
      then next_candidate fuel' known_exponents (p + 2)
      else Done p
  end.

(** [for _ in range(batch_size): ...; candidates.append(p); p += 2];
    the outcome is the batch and the value of [p] after it. *)
Fixpoint gen_batch (fuel : nat) (known_exponents : list Z) (n : nat)
    (candidates : list Z) (p : Z) : result (list Z * Z) :=
  match n with
  | O => Done (candidates, p)
  | S n' =>
      c <- next_candidate fuel known_exponents p ;;
      gen_batch fuel known_exponents n' (candidates ++ [c]) (c + 2)
  end.

(** [for candidate_p, is_mersenne in results: if is_mersenne: ...] *)
Fixpoint first_mersenne (results : list (Z * bool)) : option Z :=
  match results with
  | [] => None
  | (candidate_p, is_mersenne) :: rest =>
      if is_mersenne then Some candidate_p else first_mersenne rest
  end.

(** The [while True] loop.  [sched k] is the order in which the workers
    finish the tasks of batch [k].  Next to the outcome the model records
    the exponents handed to the pool, in order. *)
Fixpoint find_loop (fuel : nat) (sched : nat -> list nat) (batch : nat)
    (known_exponents : list Z) (num_processes : Z) (batch_size : Z) (p : Z)
  : list Z * result (Z * Z) :=
  match fuel with
  | O => ([], OutOfFuel)
  | S fuel' =>
      match gen_batch fuel' known_exponents (Z.to_nat batch_size) [] p with
      | Done (candidates, p') =>
          if num_processes <? 1 then ([], Raise ValueError)
          else
            match pool_map (sched batch) lucas_lehmer_test_multiprocessing
                           candidates with
            | Done results =>
                match first_mersenne results with
                | Some candidate_p =>
                    (candidates,
                     mersenne_prime <- mersenne candidate_p ;;
                     Done (mersenne_prime, candidate_p))
                | None =>
                    let (more, r) :=
                      find_loop fuel' sched (S batch) known_exponents
                                num_processes batch_size p' in
                    (candidates ++ more, r)
                end
            | Raise e => (candidates, Raise e)
            | OutOfFuel => (candidates, OutOfFuel)
            end
      | Raise e => ([], Raise e)
      | OutOfFuel => ([], OutOfFuel)
      end
  end.

(** [if num_processes is None: num_processes = multiprocessing.cpu_count()] *)
Definition default_processes (num_processes : option Z) : Z :=
  match num_processes with
  | None => cpu_count
  | Some n => n
  end.

Definition find_next_mersenne_prime (fuel : nat) (sched : nat -> list nat)
    (start : Z) (known_exponents : list Z) (num_processes : option Z)
  : list Z * result (Z * Z) :=
  let num_processes := default_processes num_processes in
  let p := start + 1 in
  let p := if p mod 2 =? 0 then p + 1 else p in
  let batch_size := num_processes * 2 in
  find_loop fuel sched 0 known_exponents num_processes batch_size p.

(** One turn of the [while True] loop of [main], up to the call of the
    verifier: the search, [known_exponents.append(p)],
    [starting_prime_exponent = p] and [verify_mersenne_prime(p)].  The
    prints and the pause on [input] do not touch this state and are left
    out.  An exception ends [main] through its handler. *)
Definition main_iteration (fuel : nat) (sched : nat -> list nat)
    (known_exponents : list Z) (starting_prime_exponent : Z)
  : result (list Z * Z * bool) :=
  found <- snd (find_next_mersenne_prime fuel sched starting_prime_exponent
                  known_exponents (Some cpu_count)) ;;
  let p := snd found in
  let known_exponents := known_exponents ++ [p] in
  let starting_prime_exponent := p in
  verified <- verify_mersenne_prime p ;;
  Done (known_exponents, starting_prime_exponent, verified).

(** [n] turns of that loop; both branches of [if verify_mersenne_prime(p)]
    go on with the same state. *)
Fixpoint main_iterations (n : nat) (fuel : nat) (sched : nat -> list nat)
    (known_exponents : list Z) (starting_prime_exponent : Z)
  : result (list Z * Z) :=
  match n with
  | O => Done (known_exponents, starting_prime_exponent)
  | S n' =>
      st <- main_iteration fuel sched known_exponents
              starting_prime_exponent ;;
      main_iterations n' fuel sched (fst (fst st)) (snd (fst st))
  end.

End WithEnvironment.

(** The seed list of [main]. *)
Definition known_exponents : list Z :=
  [2; 3; 5; 7; 13; 17; 19; 31; 61; 89; 107; 127].

End MERSENNE.

(** ** Mersenne_GPU.py *)

Module Mersenne_GPU.

(** *** int64 arithmetic of the kernel

    Inside the [@cuda.jit] kernel every value is typed [int64]: sums,
    products and left shifts keep the low 64 bits, read as a signed
    number (a shift by 64 or more leaves 0); [%] has the sign of the
    divisor, as in Python.  The shift counts are [i * chunk_size] with
    [chunk_size = 30], never negative. *)

Definition wrap64 (z : Z) : Z := (z + 2 ^ 63) mod 2 ^ 64 - 2 ^ 63.

Definition add64 (a b : Z) : Z := wrap64 (a + b).
Definition sub64 (a b : Z) : Z := wrap64 (a - b).
Definition mul64 (a b : Z) : Z := wrap64 (a * b).
Definition shl64 (a n : Z) : Z := wrap64 (Z.shiftl a n).

(** [for i in range(len(M_chunks)): M += M_chunks[i] << (i * chunk_size)] *)
Definition kernel_modulus (M_chunks : list Z) (chunk_size : Z) : Z :=
  fold_left
    (fun M i => add64 M (shl64 (nth i M_chunks 0)
                               (mul64 (Z.of_nat i) chunk_size)))
    (seq 0 (length M_chunks)) 0.

(** [s = (s * s - 2) % M].  The modulus rebuilt from the chunks of
    [2 ^ p - 1] is never 0 when [p >= 1] ([kernel_modulus_nonzero]), so
    the division is defined whenever the loop runs. *)
Definition kernel_body (M s : Z) : Z := sub64 (mul64 s s) 2 mod M.

(** Thread 0 of the grid; the value is what it stores in [s_array[0]]. *)
Definition lucas_lehmer_kernel_chunked (p : Z) (M_chunks : list Z)
    (chunk_size : Z) : Z :=
  let M := kernel_modulus M_chunks chunk_size in
  for_range (Z.to_nat (p - 2)) (kernel_body M) 4.

(** [while number: chunks.append(...); number >>= chunk_size] *)
Fixpoint split_loop (fuel : nat) (chunks : list Z) (number chunk_size : Z)
  : result (list Z) :=
  match fuel with
  | O => OutOfFuel
  | S fuel' =>
      if number =? 0 then Done chunks
      else
        m <- py_shl 1 chunk_size ;;
        number' <- py_shr number chunk_size ;;
        split_loop fuel' (chunks ++ [Z.land number (m - 1)]) number' chunk_size
  end.

Definition split_chunks (fuel : nat) (number chunk_size : Z)
  : result (list Z) :=
  split_loop fuel [] number chunk_size.

(** [for chunk in reversed(chunks): number = (number << chunk_size) | chunk] *)
Definition combine_chunks (chunks : list Z) (chunk_size : Z) : result Z :=
  fold_left
    (fun acc chunk =>
       number <- acc ;;
       shifted <- py_shl number chunk_size ;;
       Done (Z.lor shifted chunk))
    (rev chunks) (Done 0).

(** The chunks are below [2 ^ 30], so [np.array(..., dtype=np.int64)]
    stores them unchanged. *)
Definition lucas_lehmer_test_cuda (fuel : nat) (p : Z) : result bool :=
  if p =? 2 then Done true
  else
    let chunk_size := 30 in
    M <- mersenne p ;;
    M_chunks <- split_chunks fuel M chunk_size ;;
    let threads_per_block := 32 in
    let blocks_per_grid :=
      (Z.of_nat (length M_chunks) + threads_per_block - 1)
        / threads_per_block in
    if blocks_per_grid =? 0 then Raise CudaAPIError
    else
      let s_result := lucas_lehmer_kernel_chunked p M_chunks chunk_size in
      Done (s_result =? 0).

(** [p % 6 not in {1, 5}] *)
Definition not_1_or_5_mod_6 (p : Z) : bool :=
  negb ((p mod 6 =? 1) || (p mod 6 =? 5)).

(** The [while True] loop; next to the outcome the model records the
    exponents passed to [lucas_lehmer_test_cuda], in order. *)
Fixpoint find_loop (fuel : nat) (known_exponents : list Z) (p : Z)
  : list Z * result (Z * Z) :=
  match fuel with
  | O => ([], OutOfFuel)
  | S fuel' =>
      let p := p + 1 in
      if py_in p known_exponents then find_loop fuel' known_exponents p
      else if not_1_or_5_mod_6 p then find_loop fuel' known_exponents p
      else
        match lucas_lehmer_test_cuda fuel' p with
        | Done true =>
            ([p], mersenne_prime <- mersenne p ;; Done (mersenne_prime, p))
        | Done false =>
            let (more, r) := find_loop fuel' known_exponents p in
            (p :: more, r)
        | Raise e => ([p], Raise e)
        | OutOfFuel => ([p], OutOfFuel)
        end
  end.

Definition find_next_mersenne_prime (fuel : nat) (start : Z)
    (known_exponents : list Z) : list Z * result (Z * Z) :=
  find_loop fuel known_exponents start.

(** The module-level seed list. *)
Definition known_exponents : list Z :=
  [2; 3; 5; 7; 13; 17; 19; 31; 61; 89; 107; 127; 521; 2203].

Section WithOracle.

Variable gmpy2_is_prime : Z -> bool.

Definition verify_mersenne_prime (p : Z) : result bool :=
  mersenne_candidate <- mersenne p ;;
  Done (gmpy2_is_prime mersenne_candidate).

(** One turn of the module-level [while True] loop, up to the call of
    the verifier; the prints and the pause on [input] are left out. *)
Definition search_iteration (fuel : nat) (known_exponents : list Z)
    (starting_prime_exponent : Z) : result (list Z * Z * bool) :=
  found <- snd (find_next_mersenne_prime fuel starting_prime_exponent
                  known_exponents) ;;
  let p := snd found in
  let known_exponents := known_exponents ++ [p] in
  let starting_prime_exponent := p in
  verified <- verify_mersenne_prime p ;;
  Done (known_exponents, starting_prime_exponent, verified).

Fixpoint search_iterations (n : nat) (fuel : nat)
    (known_exponents : list Z) (starting_prime_exponent : Z)
  : result (list Z * Z) :=
  match n with
  | O => Done (known_exponents, starting_prime_exponent)
  | S n' =>
      st <- search_iteration fuel known_exponents starting_prime_exponent ;;
      search_iterations n' fuel (fst (fst st)) (snd (fst st))
  end.

End WithOracle.

End Mersenne_GPU.

(** * Properties *)

(** ** Outcomes *)

Lemma bind_Done {A B : Type} (c : result A) (k : A -> result B) (b : B) :
  bind c k = Done b -> exists a, c = Done a /\ k a = Done b.
Proof. destruct c; simpl; intros H; try discriminate. eauto. Qed.

Lemma py_shl_nonneg (a n : Z) : 0 <= n -> py_shl a n = Done (a * 2 ^ n).
Proof.
  intros Hn. unfold py_shl.
  destruct (Z.ltb_spec n 0); [lia|]. now rewrite Z.shiftl_mul_pow2.
Qed.

Lemma py_shr_nonneg (a n : Z) : 0 <= n -> py_shr a n = Done (a / 2 ^ n).
Proof.
  intros Hn. unfold py_shr.
  destruct (Z.ltb_spec n 0); [lia|]. now rewrite Z.shiftr_div_pow2.
Qed.

Lemma mersenne_nonneg (p : Z) : 0 <= p -> mersenne p = Done (2 ^ p - 1).
Proof.
  intros Hp. unfold mersenne. rewrite py_shl_nonneg by assumption.
  unfold bind. f_equal. lia.
Qed.

Lemma py_in_spec (x : Z) (xs : list Z) : py_in x xs = true <-> In x xs.
Proof.
  unfold py_in. rewrite existsb_exists. split.
  - intros (y & Hy & E). apply Z.eqb_eq in E. now subst.
  - intros H. exists x. split; [assumption | apply Z.eqb_refl].
Qed.

(** ** Trial division *)

Module TrialDivision.
Import MERSENNE.

Lemma divide_mod_trans (a d n : Z) :
  0 < a -> d mod a = 0 -> (d | n) -> n mod a = 0.
Proof.
  intros Ha Hd [k Hk]. subst n.
  apply Z.mod_divide; [lia|].
  apply Z.divide_mul_r. apply Z.mod_divide; [lia | assumption].
Qed.

Lemma loop_total (fuel : nat) : forall n i,
  0 < i -> (0 < fuel)%nat -> n < (i + 6 * (Z.of_nat fuel - 1)) ^ 2 ->
  exists b, is_prime_loop fuel n i = Done b.
Proof.
  induction fuel as [|fuel IH]; intros n i Hi Hf Hn; [lia|].
  simpl. destruct (Z.leb_spec (i * i) n) as [Hle|Hgt]; [|eauto].
  destruct ((n mod i =? 0) || (n mod (i + 2) =? 0)); [eauto|].
  apply IH; [lia | | ].
  - destruct fuel; [|lia]. exfalso.
    replace (i + 6 * (Z.of_nat 1 - 1)) with i in Hn by lia.
    rewrite Z.pow_2_r in Hn. lia.
  - replace (i + 6 + 6 * (Z.of_nat fuel - 1))
      with (i + 6 * (Z.of_nat (S fuel) - 1)) by lia. assumption.
Qed.

Lemma is_prime_run_total (n : Z) :
  exists b, is_prime_run (Z.to_nat n) n = Done b.
Proof.
  unfold is_prime_run.
  destruct (Z.leb_spec n 1); [eauto|].
  destruct (Z.leb_spec n 3); [eauto|].
  destruct ((n mod 2 =? 0) || (n mod 3 =? 0)); [eauto|].
  apply loop_total; [lia | lia | rewrite Z.pow_2_r; nia].
Qed.

Lemma is_prime_run_eq (n : Z) : is_prime_run (Z.to_nat n) n = Done (is_prime n).
Proof.
  unfold is_prime. destruct (is_prime_run_total n) as [b ->]. reflexivity.
Qed.

(** No divisor below [i]. *)
Definition sieved (n i : Z) : Prop := forall d, 1 < d < i -> ~ (d | n).

Lemma sieved_step (n i : Z) :
  n mod 2 <> 0 -> n mod 3 <> 0 -> i mod 6 = 5 ->
  n mod i <> 0 -> n mod (i + 2) <> 0 ->
  sieved n i -> sieved n (i + 6).
Proof.
  intros H2 H3 Hi Hni Hni2 Hs d Hd Hdiv.
  assert (Hcases : d < i \/ d = i \/ d = i + 1 \/ d = i + 2 \/ d = i + 3
                   \/ d = i + 4 \/ d = i + 5) by lia.
  destruct Hcases as [C|[C|[C|[C|[C|[C|C]]]]]].
  - apply (Hs d); [lia | assumption].
  - subst d. apply Hni. apply Z.mod_divide; [lia | assumption].
  - apply H2. apply (divide_mod_trans 2 d n); [lia | | assumption].
    subst d. Z.div_mod_to_equations. lia.
  - subst d. apply Hni2. apply Z.mod_divide; [lia | assumption].
  - apply H2. apply (divide_mod_trans 2 d n); [lia | | assumption].
    subst d. Z.div_mod_to_equations. lia.
  - apply H3. apply (divide_mod_trans 3 d n); [lia | | assumption].
    subst d. Z.div_mod_to_equations. lia.
  - apply H2. apply (divide_mod_trans 2 d n); [lia | | assumption].
    subst d. Z.div_mod_to_equations. lia.
Qed.

Lemma sieved_exit (n i : Z) :
  0 < i -> n < i * i -> sieved n i -> sieved n n.
Proof.
  intros Hi Hn Hs d Hd [k Hk].
  destruct (Z_lt_le_dec d i) as [Hlt|Hge].
  - apply (Hs d); [lia | now exists k].
  - apply (Hs k).
    + split; nia.
    + exists d. lia.
Qed.

Lemma loop_true (fuel : nat) : forall n i,
  n mod 2 <> 0 -> n mod 3 <> 0 -> 0 < i -> i mod 6 = 5 -> sieved n i ->
  is_prime_loop fuel n i = Done true -> sieved n n.
Proof.
  induction fuel as [|fuel IH]; intros n i H2 H3 Hi Hi6 Hs; simpl;
    [discriminate|].
  destruct (Z.leb_spec (i * i) n) as [Hle|Hgt].
  - destruct (Z.eqb_spec (n mod i) 0); simpl; [discriminate|].
    destruct (Z.eqb_spec (n mod (i + 2)) 0); simpl; [discriminate|].
    apply IH; try assumption; try lia.
    + Z.div_mod_to_equations. lia.
    + now apply sieved_step.
  - intros _. now apply (sieved_exit n i).
Qed.

Lemma loop_false (fuel : nat) : forall n i,
  5 <= i -> is_prime_loop fuel n i = Done false ->
  exists d, 1 < d < n /\ (d | n).
Proof.
  induction fuel as [|fuel IH]; intros n i Hi; simpl; [discriminate|].
  destruct (Z.leb_spec (i * i) n) as [Hle|Hgt]; [|discriminate].
  destruct (Z.eqb_spec (n mod i) 0) as [E1|N1]; simpl.
  - intros _. exists i. split; [nia|]. apply Z.mod_divide; [lia|assumption].
  - destruct (Z.eqb_spec (n mod (i + 2)) 0) as [E2|N2]; simpl.
    + intros _. exists (i + 2). split; [nia|].
      apply Z.mod_divide; [lia|assumption].
    + apply IH. lia.
Qed.

Theorem is_prime_spec (n : Z) : is_prime n = true <-> Z.prime n.
Proof.
  pose proof (is_prime_run_eq n) as Hrun. unfold is_prime_run in Hrun.
  destruct (Z.leb_spec n 1) as [H1|H1].
  { injection Hrun as <-. split; [discriminate|]. intros [? _]. lia. }
  destruct (Z.leb_spec n 3) as [H3|H3].
  { injection Hrun as <-. split; [|reflexivity]. intros _.
    assert (n = 2 \/ n = 3) as [->| ->] by lia;
      [apply Z.prime_2 | apply Z.prime_3]. }
  destruct (Z.eqb_spec (n mod 2) 0) as [E2|N2]; simpl in Hrun.
  { injection Hrun as <-. split; [discriminate|]. intros [_ Hp].
    exfalso. apply (Hp 2); [lia|]. apply Z.mod_divide; [lia|assumption]. }
  destruct (Z.eqb_spec (n mod 3) 0) as [E3|N3]; simpl in Hrun.
  { injection Hrun as <-. split; [discriminate|]. intros [_ Hp].
    exfalso. apply (Hp 3); [lia|]. apply Z.mod_divide; [lia|assumption]. }
  destruct (is_prime n).
  - split; [|reflexivity]. intros _. split; [lia|].
    apply (loop_true _ n 5) in Hrun; try assumption; try lia; try reflexivity.
    intros d Hd Hdiv.
    assert (d = 2 \/ d = 3 \/ d = 4) as [->|[->| ->]] by lia.
    + apply N2. now apply Z.mod_divide.
    + apply N3. now apply Z.mod_divide.
    + apply N2. apply (divide_mod_trans 2 4 n); [lia|reflexivity|assumption].
  - split; [discriminate|]. intros [_ Hp].
    apply loop_false in Hrun; [|lia].
    destruct Hrun as (d & Hd & Hdiv). exfalso. now apply (Hp d).
Qed.

Lemma is_prime_false_divisor (n : Z) :
  2 <= n -> is_prime n = false -> exists d, 1 < d < n /\ (d | n).
Proof.
  intros Hn Hf. pose proof (is_prime_run_eq n) as Hrun.
  rewrite Hf in Hrun. unfold is_prime_run in Hrun.
  destruct (Z.leb_spec n 1); [lia|].
  destruct (Z.leb_spec n 3); [discriminate|].
  destruct (Z.eqb_spec (n mod 2) 0) as [E2|N2]; simpl in Hrun.
  { exists 2. split; [lia|]. apply Z.mod_divide; [lia|assumption]. }
  destruct (Z.eqb_spec (n mod 3) 0) as [E3|N3]; simpl in Hrun.
  { exists 3. split; [lia|]. apply Z.mod_divide; [lia|assumption]. }
  apply loop_false in Hrun; [assumption | lia].
Qed.

Lemma is_prime_ge_2 (n : Z) : is_prime n = true -> 2 <= n.
Proof. intros H. apply is_prime_spec in H. destruct H. lia. Qed.

Lemma is_prime_odd (n : Z) : is_prime n = true -> 2 < n -> n mod 2 = 1.
Proof.
  intros H Hn. apply is_prime_spec in H. destruct H as [_ Hp].
  destruct (Z.eq_dec (n mod 2) 0) as [E|N].
  - exfalso. apply (Hp 2); [lia|]. apply Z.mod_divide; [lia|assumption].
  - Z.div_mod_to_equations. lia.
Qed.

(** Every number from 2 on has a divisor that [is_prime] accepts. *)
Lemma prime_divisor (m : Z) :
  2 <= m -> exists d, 2 <= d <= m /\ (d | m) /\ is_prime d = true.
Proof.
  induction m as [m IH] using (well_founded_induction (Z.lt_wf 2)).
  intros Hm. destruct (is_prime m) eqn:E.
  - exists m. repeat split; try lia; [apply Z.divide_refl | assumption].
  - destruct (is_prime_false_divisor m Hm E) as (e & He & Hdiv).
    destruct (IH e) as (d & Hd & Hde & Hpd); [lia | lia |].
    exists d. repeat split; try lia; [|assumption].
    now apply Z.divide_trans with e.
Qed.

Lemma divide_fact (k d : nat) :
  (1 <= d <= k)%nat -> Nat.divide d (fact k).
Proof.
  induction k as [|k IH]; intros Hd; [lia|].
  change (fact (S k)) with (S k * fact k)%nat.
  destruct (Nat.eq_dec d (S k)) as [->|N].
  - apply Nat.divide_mul_l, Nat.divide_refl.
  - apply Nat.divide_mul_r, IH. lia.
Qed.

(** Euclid: [is_prime] accepts arbitrarily large numbers. *)
Theorem is_prime_unbounded (n : Z) : exists q, n < q /\ is_prime q = true.
Proof.
  set (k := Z.to_nat (Z.max n 2)).
  pose proof (lt_O_fact k) as Hpos.
  destruct (prime_divisor (Z.of_nat (fact k) + 1)) as (d & Hd & Hdiv & Hp);
    [lia|].
  exists d. split; [|assumption].
  destruct (Z_lt_le_dec n d) as [|Hle]; [assumption|exfalso].
  assert (Hnat : Nat.divide (Z.to_nat d) (fact k)).
  { apply divide_fact. unfold k. lia. }
  destruct Hnat as [c Hc].
  assert (Hdf : (d | Z.of_nat (fact k))).
  { exists (Z.of_nat c). rewrite Hc, Nat2Z.inj_mul. f_equal.
    rewrite Z2Nat.id; lia. }
  assert (H1 : (d | 1)).
  { apply (Z.divide_add_cancel_r d (Z.of_nat (fact k)) 1); assumption. }
  apply Z.divide_1_r_nonneg in H1; lia.
Qed.

End TrialDivision.

(** ** Candidate generation of MERSENNE.py *)

Module Generator.
Import MERSENNE TrialDivision.

(** The test of the inner [while], negated. *)
Definition is_candidate (known : list Z) (p : Z) : bool :=
  negb (py_in p known || negb (is_prime p)).

Lemma is_candidate_spec (known : list Z) (p : Z) :
  is_candidate known p = true <-> ~ In p known /\ is_prime p = true.
Proof.
  unfold is_candidate. rewrite negb_true_iff, orb_false_iff, negb_false_iff.
  rewrite <- py_in_spec. destruct (py_in p known); intuition congruence.
Qed.

(** [c] is the first odd candidate from [p] on. *)
Definition next_from (known : list Z) (p c : Z) : Prop :=
  p <= c /\ c mod 2 = 1 /\ is_candidate known c = true /\
  forall r, p <= r < c -> r mod 2 = 1 -> is_candidate known r = false.

Lemma next_from_unique (known : list Z) (p c c' : Z) :
  next_from known p c -> next_from known p c' -> c = c'.
Proof.
  intros (H1 & H2 & H3 & H4) (H1' & H2' & H3' & H4').
  destruct (Z.lt_trichotomy c c') as [L|[E|L]]; [|assumption|].
  - rewrite (H4' c) in H3 by (assumption || lia). discriminate.
  - rewrite (H4 c') in H3' by (assumption || lia). discriminate.
Qed.

Section Known.
Variable known : list Z.

Lemma next_candidate_sound (fuel : nat) : forall p c,
  p mod 2 = 1 -> next_candidate fuel known p = Done c -> next_from known p c.
Proof.
  induction fuel as [|fuel IH]; intros p c Hp; simpl; [discriminate|].
  fold (is_candidate known p).
  destruct (py_in p known || negb (is_prime p)) eqn:E.
  - intros H. apply IH in H; [|Z.div_mod_to_equations; lia].
    destruct H as (H1 & H2 & H3 & H4). repeat split; try assumption; [lia|].
    intros r Hr Hodd. destruct (Z.eq_dec r p) as [->|N].
    + unfold is_candidate. now rewrite E.
    + apply H4; [|assumption].
      assert (r <> p + 1) by (intros ->; Z.div_mod_to_equations; lia). lia.
  - intros [= <-]. repeat split; try assumption; try lia.
    unfold is_candidate. now rewrite E.
Qed.

Lemma next_candidate_reaches (k : nat) : forall p,
  is_candidate known (p + 2 * Z.of_nat k) = true ->
  exists c, forall fuel, (k < fuel)%nat ->
    next_candidate fuel known p = Done c.
Proof.
  induction k as [|k IH]; intros p Hc.
  - exists p. intros [|fuel] Hf; [lia|]. simpl.
    replace (p + 2 * Z.of_nat 0) with p in Hc by lia.
    unfold is_candidate in Hc. apply negb_true_iff in Hc. now rewrite Hc.
  - destruct (py_in p known || negb (is_prime p)) eqn:E.
    + destruct (IH (p + 2)) as [c Hcf].
      { replace (p + 2 + 2 * Z.of_nat k) with (p + 2 * Z.of_nat (S k)) by lia.
        assumption. }
      exists c. intros [|fuel] Hf; [lia|]. simpl. rewrite E.
      apply Hcf. lia.
    + exists p. intros [|fuel] Hf; [lia|]. simpl. now rewrite E.
Qed.

Lemma known_bounded : exists B, forall x, In x known -> x <= B.
Proof.
  induction known as [|a l [B HB]].
  - exists 0. intros x [].
  - exists (Z.max a B). intros x [<-|Hx]; [lia|].
    specialize (HB x Hx). lia.
Qed.

Lemma candidate_above (p : Z) :
  p mod 2 = 1 -> exists k, is_candidate known (p + 2 * Z.of_nat k) = true.
Proof.
  intros Hp. destruct known_bounded as [B HB].
  destruct (is_prime_unbounded (Z.max (Z.max p B) 2)) as (q & Hq & Hpq).
  pose proof (is_prime_odd q Hpq ltac:(lia)) as Hodd.
  exists (Z.to_nat ((q - p) / 2)).
  replace (p + 2 * Z.of_nat (Z.to_nat ((q - p) / 2))) with q.
  - apply is_candidate_spec. split; [|assumption].
    intros Hin. specialize (HB q Hin). lia.
  - rewrite Z2Nat.id by (Z.div_mod_to_equations; lia).
    Z.div_mod_to_equations. lia.
Qed.

(** The inner [while] always ends when it starts at an odd [p]. *)
Lemma next_candidate_total (p : Z) :
  p mod 2 = 1 ->
  exists c fuel0, next_from known p c /\
    forall fuel, (fuel0 <= fuel)%nat -> next_candidate fuel known p = Done c.
Proof.
  intros Hp. destruct (candidate_above p Hp) as [k Hk].
  destruct (next_candidate_reaches k p Hk) as [c Hc].
  exists c, (S k). split.
  - apply (next_candidate_sound (S k)); [assumption | apply Hc; lia].
  - intros fuel Hf. apply Hc. lia.
Qed.

(** A batch of [n] candidates drawn from [p] on, and where [p] stands
    after it. *)
Inductive batch : Z -> nat -> list Z -> Z -> Prop :=
| batch_nil p : batch p 0 [] p
| batch_cons p c n cs p' :
    next_from known p c -> batch (c + 2) n cs p' ->
    batch p (S n) (c :: cs) p'.

Lemma gen_batch_sound (fuel n : nat) : forall acc p l p',
  p mod 2 = 1 ->
  gen_batch fuel known n acc p = Done (l, p') ->
  exists cs, l = acc ++ cs /\ batch p n cs p'.
Proof.
  induction n as [|n IH]; intros acc p l p' Hp; simpl.
  - intros [= <- <-]. exists []. split; [now rewrite app_nil_r | constructor].
  - intros H. apply bind_Done in H. destruct H as (c & Hc & H).
    apply next_candidate_sound in Hc; [|assumption].
    apply IH in H.
    + destruct H as (cs & -> & Hb). exists (c :: cs). split.
      * now rewrite <- app_assoc.
      * now constructor.
    + destruct Hc as (_ & Hc & _). Z.div_mod_to_equations. lia.
Qed.

Lemma gen_batch_total (n : nat) : forall p,
  p mod 2 = 1 ->
  exists cs p' fuel0, batch p n cs p' /\
    forall fuel acc, (fuel0 <= fuel)%nat ->
      gen_batch fuel known n acc p = Done (acc ++ cs, p').
Proof.
  induction n as [|n IH]; intros p Hp.
  - exists [], p, O. split; [constructor|]. intros fuel acc _. simpl.
    now rewrite app_nil_r.
  - destruct (next_candidate_total p Hp) as (c & f1 & Hn & Hc).
    destruct (IH (c + 2)) as (cs & p' & f2 & Hb & Hg).
    { destruct Hn as (_ & Hn & _). Z.div_mod_to_equations. lia. }
    exists (c :: cs), p', (Nat.max f1 f2). split; [now constructor|].
    intros fuel acc Hf. simpl. rewrite Hc by lia. simpl.
    rewrite Hg by lia. now rewrite <- app_assoc.
Qed.

(** What a batch contains: exactly the odd candidates of [[p, p')], in
    increasing order. *)
Lemma batch_spec p n cs p' :
  batch p n cs p' -> p mod 2 = 1 ->
  p' mod 2 = 1 /\ p <= p' /\ length cs = n /\
  (forall r, In r cs <->
     p <= r < p' /\ r mod 2 = 1 /\ is_candidate known r = true) /\
  StronglySorted Z.lt cs /\ ((0 < n)%nat -> p < p').
Proof.
  induction 1 as [p|p c n cs p' Hn Hb IH]; intros Hp.
  - split; [assumption|]. split; [lia|]. split; [reflexivity|].
    split; [|split].
    + intros r. split; [intros [] | intros (? & _); lia].
    + constructor.
    + lia.
  - destruct Hn as (H1 & H2 & H3 & H4).
    destruct IH as (I1 & I2 & I3 & I4 & I5 & _);
      [Z.div_mod_to_equations; lia|].
    split; [assumption|]. split; [lia|]. split; [simpl; lia|].
    split; [|split].
    + intros r. simpl. rewrite I4. split.
      * intros [<-|(Hr & Hodd & Hcand)]; repeat split; try assumption; lia.
      * intros (Hr & Hodd & Hcand).
        destruct (Z.eq_dec c r) as [E|N]; [now left|right].
        repeat split; try assumption; try lia.
        destruct (Z_lt_le_dec r c) as [L|G].
        -- rewrite (H4 r) in Hcand by (assumption || lia). discriminate.
        -- assert (r <> c + 1) by (intros ->; Z.div_mod_to_equations; lia).
           lia.
    + constructor; [assumption|].
      apply Forall_forall. intros x Hx. apply I4 in Hx. lia.
    + intros _. lia.
Qed.

End Known.

End Generator.

(** ** The pool returns results in task order *)

Section PoolOrder.
Context {A B : Type}.
Variable f : A -> result B.

Lemma slot_arrivals (finish : list nat) (xs : list A) (i : nat) (x : A) :
  In i finish -> nth_error xs i = Some x ->
  slot (arrivals finish f xs) i = f x.
Proof.
  intros Hin Hx. unfold slot, arrivals.
  induction finish as [|j rest IH]; [destruct Hin|].
  simpl. destruct (Nat.eq_dec j i) as [->|N].
  - rewrite Hx. simpl. now rewrite Nat.eqb_refl.
  - destruct Hin as [E|Hin]; [contradiction|].
    destruct (nth_error xs j); simpl; [|now apply IH].
    apply Nat.eqb_neq in N. rewrite N. now apply IH.
Qed.

Lemma map_seq_nth_error (xs : list A) : forall (g : nat -> result B),
  (forall i x, nth_error xs i = Some x -> g i = f x) ->
  map g (seq 0 (length xs)) = map f xs.
Proof.
  induction xs as [|x xs IH]; intros g Hg; [reflexivity|].
  simpl. rewrite <- seq_shift, map_map. f_equal.
  - now apply (Hg O).
  - apply IH. intros i y Hy. now apply (Hg (S i)).
Qed.

(** Whatever the order of completion, [pool.map(f, xs)] is the list of
    the [f x] in the order of [xs]. *)
Lemma pool_map_ordered (finish : list nat) (xs : list A) :
  Permutation finish (seq 0 (length xs)) ->
  pool_map finish f xs = collect (map f xs).
Proof.
  intros Hperm. unfold pool_map. f_equal.
  apply map_seq_nth_error. intros i x Hx. apply slot_arrivals; [|assumption].
  apply (Permutation_in i (Permutation_sym Hperm)).
  apply in_seq. split; [lia|]. simpl.
  apply nth_error_Some. congruence.
Qed.

End PoolOrder.

(** ** The Lucas-Lehmer test of MERSENNE.py *)

Module LucasLehmer.
Import MERSENNE.

(** The recurrence as the specification writes it:
    [S 0 = 4], [S (k+1) = (S k ^ 2 - 2) mod M]. *)
Fixpoint ll_seq (M : Z) (k : nat) : Z :=
  match k with
  | O => 4
  | S k' => (ll_seq M k' ^ 2 - 2) mod M
  end.

Lemma ll_body_flag (flag : bool) (M s : Z) :
  ll_body flag M s = (s * s - 2) mod M.
Proof. now destruct flag. Qed.

Lemma for_range_ll_seq (flag : bool) (M : Z) (n : nat) : forall k,
  for_range n (ll_body flag M) (ll_seq M k) = ll_seq M (n + k).
Proof.
  induction n as [|n IH]; intros k; [reflexivity|].
  simpl for_range. rewrite ll_body_flag.
  replace (ll_seq M k * ll_seq M k) with (ll_seq M k ^ 2) by (now rewrite Z.pow_2_r).
  change ((ll_seq M k ^ 2 - 2) mod M) with (ll_seq M (S k)).
  rewrite IH. f_equal. lia.
Qed.

Lemma ll_residue_seq (flag : bool) (M p : Z) :
  ll_residue flag M p = ll_seq M (Z.to_nat (p - 2)).
Proof.
  unfold ll_residue. change 4 with (ll_seq M 0).
  rewrite for_range_ll_seq. f_equal. lia.
Qed.

(** The verdict on a non-negative exponent. *)
Definition verdict (flag : bool) (p : Z) : bool :=
  if p =? 2 then true else ll_residue flag (2 ^ p - 1) p =? 0.

Lemma lucas_lehmer_test_nonneg (flag : bool) (p : Z) :
  0 <= p -> lucas_lehmer_test flag p = Done (verdict flag p).
Proof.
  intros Hp. unfold lucas_lehmer_test, verdict.
  destruct (p =? 2); [reflexivity|].
  now rewrite mersenne_nonneg.
Qed.

(** The same loop on machine-word big integers, to evaluate verdicts on
    exponents of several hundred bits. *)
Definition big_body (M s : bigZ) : bigZ := ((s * s - 2) mod M)%bigZ.

Definition big_verdict (p : Z) : bool :=
  if p =? 2 then true
  else
    BigZ.eqb (for_range (Z.to_nat (p - 2))
                        (big_body (2 ^ BigZ.of_Z p - 1)%bigZ) 4%bigZ)
             0%bigZ.

Lemma big_body_spec (flag : bool) (M s : bigZ) :
  BigZ.to_Z (big_body M s) = ll_body flag (BigZ.to_Z M) (BigZ.to_Z s).
Proof.
  rewrite ll_body_flag. unfold big_body.
  now rewrite BigZ.spec_modulo, BigZ.spec_sub, BigZ.spec_mul.
Qed.

Lemma big_for_range (flag : bool) (M : bigZ) (n : nat) : forall s,
  BigZ.to_Z (for_range n (big_body M) s)
  = for_range n (ll_body flag (BigZ.to_Z M)) (BigZ.to_Z s).
Proof.
  induction n as [|n IH]; intros s; [reflexivity|].
  simpl. rewrite IH. now rewrite (big_body_spec flag).
Qed.

Lemma big_verdict_spec (flag : bool) (p : Z) :
  verdict flag p = big_verdict p.
Proof.
  unfold verdict, big_verdict. destruct (p =? 2); [reflexivity|].
  rewrite BigZ.spec_eqb, (big_for_range flag).
  now rewrite BigZ.spec_sub, BigZ.spec_pow, BigZ.spec_of_Z.
Qed.

Lemma collect_tests (flag : bool) (cs : list Z) :
  Forall (fun c => 0 <= c) cs ->
  collect (map (lucas_lehmer_test_multiprocessing flag) cs)
  = Done (map (fun c => (c, verdict flag c)) cs).
Proof.
  induction 1 as [|c cs Hc _ IH]; [reflexivity|].
  simpl. unfold lucas_lehmer_test_multiprocessing at 1.
  rewrite lucas_lehmer_test_nonneg by assumption. simpl.
  now rewrite IH.
Qed.

Lemma first_mersenne_find (v : Z -> bool) (cs : list Z) :
  first_mersenne (map (fun c => (c, v c)) cs) = find v cs.
Proof.
  induction cs as [|c cs IH]; [reflexivity|].
  simpl. now destruct (v c).
Qed.

End LucasLehmer.

(** ** The batch search of MERSENNE.py *)

Module Scheduler.
Import MERSENNE TrialDivision Generator LucasLehmer.

Lemma find_sorted_before (v : Z -> bool) (cs : list Z) (q r : Z) :
  StronglySorted Z.lt cs -> find v cs = Some q -> In r cs -> r < q ->
  v r = false.
Proof.
  induction 1 as [|c cs Hs IH Hall]; intros Hf Hin Hlt; [destruct Hin|].
  simpl in Hf. destruct (v c) eqn:E.
  - injection Hf as ->. destruct Hin as [<-|Hin]; [lia|].
    rewrite Forall_forall in Hall. specialize (Hall r Hin). lia.
  - destruct Hin as [<-|Hin]; [assumption|]. now apply IH.
Qed.

Lemma snd_let {A B C : Type} (x : A * B) (g : A -> C) :
  (let (a, b) := x in (g a, b)) = (g (fst x), snd x).
Proof. now destruct x. Qed.

Lemma first_odd_above (start : Z) :
  (if (start + 1) mod 2 =? 0 then start + 1 + 1 else start + 1) mod 2 = 1.
Proof.
  destruct (Z.eqb_spec ((start + 1) mod 2) 0); Z.div_mod_to_equations; lia.
Qed.

Section Search.
Variable flag : bool.
Variable known : list Z.
Variables num_processes batch_size : Z.
Variable sched : nat -> list nat.

(** [sched k] is an order in which the tasks of a batch may finish. *)
Hypothesis Hnp : 1 <= num_processes.
Hypothesis Hsched :
  forall k, Permutation (sched k) (seq 0 (Z.to_nat batch_size)).

Abbreviation loop fuel k p :=
  (find_loop flag fuel sched k known num_processes batch_size p).

(** [q] is the least odd candidate from [p] on that passes the test. *)
Definition first_hit (p q : Z) : Prop :=
  p <= q /\ q mod 2 = 1 /\ is_candidate known q = true /\
  verdict flag q = true /\
  forall r, p <= r < q -> r mod 2 = 1 -> is_candidate known r = true ->
            verdict flag r = false.

Lemma first_hit_unique (p q q' : Z) :
  first_hit p q -> first_hit p q' -> q = q'.
Proof.
  intros (H1 & H2 & H3 & H4 & H5) (H1' & H2' & H3' & H4' & H5').
  destruct (Z.lt_trichotomy q q') as [L|[E|L]]; [|assumption|].
  - rewrite (H5' q) in H4 by (assumption || lia). discriminate.
  - rewrite (H5 q') in H4' by (assumption || lia). discriminate.
Qed.

Lemma batch_nonneg p n cs p' :
  batch known p n cs p' -> p mod 2 = 1 -> Forall (fun c => 0 <= c) cs.
Proof.
  intros Hb Hp. apply Forall_forall. intros c Hc.
  destruct (batch_spec known _ _ _ _ Hb Hp) as (_ & _ & _ & Hin & _).
  apply Hin in Hc. destruct Hc as (_ & _ & Hc).
  apply is_candidate_spec in Hc. destruct Hc as [_ Hc].
  apply is_prime_ge_2 in Hc. lia.
Qed.

(** One turn of the [while True] loop on a completed batch. *)
Lemma find_loop_step (fuel k : nat) (p p' : Z) (cs : list Z) :
  p mod 2 = 1 ->
  gen_batch fuel known (Z.to_nat batch_size) [] p = Done (cs, p') ->
  loop (S fuel) k p =
  match find (verdict flag) cs with
  | Some q => (cs, Done (2 ^ q - 1, q))
  | None => (cs ++ fst (loop fuel (S k) p'), snd (loop fuel (S k) p'))
  end.
Proof.
  intros Hp Hg. cbn [find_loop]. rewrite Hg.
  destruct (Z.ltb_spec num_processes 1); [lia|].
  destruct (gen_batch_sound known _ _ _ _ _ _ Hp Hg) as (cs' & E & Hb).
  simpl in E. subst cs'.
  destruct (batch_spec known _ _ _ _ Hb Hp) as (_ & _ & Hlen & _).
  rewrite pool_map_ordered by (rewrite Hlen; apply Hsched).
  rewrite collect_tests by (eapply batch_nonneg; eassumption).
  rewrite first_mersenne_find.
  destruct (find (verdict flag) cs) as [q|] eqn:F.
  - apply find_some in F. destruct F as [Hin _].
    pose proof (batch_nonneg _ _ _ _ Hb Hp) as Hall.
    rewrite Forall_forall in Hall.
    rewrite mersenne_nonneg by (now apply Hall). reflexivity.
  - apply snd_let.
Qed.

Lemma find_loop_sound (fuel : nat) : forall k p r,
  p mod 2 = 1 -> snd (loop fuel k p) = Done r ->
  exists q, r = (2 ^ q - 1, q) /\ first_hit p q.
Proof.
  induction fuel as [|fuel IH]; intros k p r Hp; [discriminate|].
  destruct (gen_batch fuel known (Z.to_nat batch_size) [] p)
    as [[cs p']| |] eqn:G.
  - rewrite (find_loop_step _ _ _ _ _ Hp G).
    destruct (gen_batch_sound known _ _ _ _ _ _ Hp G) as (cs' & E & Hb).
    simpl in E. subst cs'.
    destruct (batch_spec known _ _ _ _ Hb Hp)
      as (Hp' & Hle & _ & Hin & Hsorted & _).
    destruct (find (verdict flag) cs) as [q|] eqn:F.
    + intros [= <-]. exists q. split; [reflexivity|].
      pose proof (find_some _ _ F) as [Hq Hv].
      apply Hin in Hq. destruct Hq as (Hq & Hodd & Hcand).
      repeat split; try assumption; try lia.
      intros r Hr Hro Hrc.
      apply (find_sorted_before _ cs q r); try assumption; try lia.
      apply Hin. repeat split; try assumption; lia.
    + simpl. intros H. apply IH in H; [|assumption].
      destruct H as (q & -> & (H1 & H2 & H3 & H4 & H5)).
      exists q. split; [reflexivity|].
      repeat split; try assumption; try lia.
      intros r Hr Hro Hrc. destruct (Z_lt_le_dec r p') as [L|Ge].
      * apply (find_none _ _ F). apply Hin.
        repeat split; try assumption; lia.
      * apply H5; try assumption; lia.
  - cbn [find_loop]. rewrite G. discriminate.
  - cbn [find_loop]. rewrite G. discriminate.
Qed.

Lemma find_loop_total (m : nat) : forall q p,
  (Z.to_nat (q - p) <= m)%nat -> p mod 2 = 1 -> first_hit p q ->
  0 < batch_size ->
  exists fuel0, forall fuel k, (fuel0 <= fuel)%nat ->
    snd (loop fuel k p) = Done (2 ^ q - 1, q).
Proof.
  induction m as [|m IH]; intros q p Hm Hp Hhit Hbs;
    destruct (gen_batch_total known (Z.to_nat batch_size) p Hp)
      as (cs & p' & f1 & Hb & Hg);
    destruct (batch_spec known _ _ _ _ Hb Hp)
      as (Hp' & Hle & _ & Hin & Hsorted & Hlt);
    specialize (Hlt ltac:(lia));
    pose proof (Hg f1 [] (Nat.le_refl _)) as Hg1; simpl in Hg1;
    pose proof Hhit as (H1 & H2 & H3 & H4 & H5);
    destruct (find (verdict flag) cs) as [q'|] eqn:F.
  1,3: exists (S f1); intros [|fuel] k Hf; [lia|];
       specialize (Hg fuel [] ltac:(lia)); simpl in Hg;
       rewrite (find_loop_step _ _ _ _ _ Hp Hg), F; simpl;
       pose proof (find_loop_sound (S f1) 0%nat p (2 ^ q' - 1, q') Hp) as Hs;
       rewrite (find_loop_step _ _ _ _ _ Hp Hg1), F in Hs;
       destruct (Hs eq_refl) as (q2 & [= E] & Hhit2); subst q2;
       now rewrite (first_hit_unique _ _ _ Hhit Hhit2).
  - exfalso. assert (Hq : In q cs).
    { apply Hin. repeat split; try assumption; lia. }
    pose proof (find_none _ _ F q Hq). congruence.
  - assert (Hge : p' <= q).
    { destruct (Z_lt_le_dec q p') as [L|]; [exfalso|assumption].
      assert (Hq : In q cs) by (apply Hin; repeat split; try assumption; lia).
      pose proof (find_none _ _ F q Hq). congruence. }
    destruct (IH q p') as [f2 Hf2]; try assumption; [lia| |].
    { repeat split; try assumption. intros r Hr. apply H5. lia. }
    exists (S (Nat.max f1 f2)). intros [|fuel] k Hf; [lia|].
    specialize (Hg fuel [] ltac:(lia)). simpl in Hg.
    rewrite (find_loop_step _ _ _ _ _ Hp Hg), F. simpl.
    apply Hf2. lia.
Qed.

(** The loop leaves only through a hit: it never raises. *)
Lemma next_candidate_no_raise (fuel : nat) : forall p e,
  next_candidate fuel known p <> Raise e.
Proof.
  induction fuel as [|fuel IH]; intros p e; simpl; [discriminate|].
  destruct (py_in p known || negb (is_prime p)); [apply IH | discriminate].
Qed.

Lemma gen_batch_no_raise (fuel n : nat) : forall acc p e,
  gen_batch fuel known n acc p <> Raise e.
Proof.
  induction n as [|n IH]; intros acc p e; simpl; [discriminate|].
  destruct (next_candidate fuel known p) as [c|e'|] eqn:E; simpl.
  - apply IH.
  - now apply next_candidate_no_raise in E.
  - discriminate.
Qed.

Lemma find_loop_no_raise (fuel : nat) : forall k p e,
  p mod 2 = 1 -> snd (loop fuel k p) <> Raise e.
Proof.
  induction fuel as [|fuel IH]; intros k p e Hp; [discriminate|].
  destruct (gen_batch fuel known (Z.to_nat batch_size) [] p)
    as [[cs p']|e'|] eqn:G.
  - rewrite (find_loop_step _ _ _ _ _ Hp G).
    destruct (find (verdict flag) cs); [discriminate|]. simpl.
    destruct (gen_batch_sound known _ _ _ _ _ _ Hp G) as (cs' & _ & Hb).
    apply IH. now destruct (batch_spec known _ _ _ _ Hb Hp).
  - now apply gen_batch_no_raise in G.
  - cbn [find_loop]. rewrite G. discriminate.
Qed.

End Search.

(** The exponents handed to the pool. *)
Lemma StronglySorted_app (l1 l2 : list Z) :
  StronglySorted Z.lt l1 -> StronglySorted Z.lt l2 ->
  (forall x y, In x l1 -> In y l2 -> x < y) ->
  StronglySorted Z.lt (l1 ++ l2).
Proof.
  induction 1 as [|a l1 Hs IH Hall]; intros H2 Hlt; [assumption|].
  simpl. constructor.
  - apply IH; [assumption|]. intros x y Hx Hy. apply Hlt; [now right|easy].
  - apply Forall_app. split; [assumption|].
    apply Forall_forall. intros y Hy. apply Hlt; [now left|assumption].
Qed.

Lemma find_loop_log (flag : bool) (sched : nat -> list nat)
    (known : list Z) (np bs : Z) (fuel : nat) : forall k p,
  p mod 2 = 1 ->
  StronglySorted Z.lt (fst (find_loop flag fuel sched k known np bs p)) /\
  Forall (fun c => p <= c /\ c mod 2 = 1 /\ is_candidate known c = true)
         (fst (find_loop flag fuel sched k known np bs p)).
Proof.
  induction fuel as [|fuel IH]; intros k p Hp; [split; constructor|].
  cbn [find_loop].
  destruct (gen_batch fuel known (Z.to_nat bs) [] p) as [[cs p']| |] eqn:G;
    [|split; constructor..].
  destruct (gen_batch_sound known _ _ _ _ _ _ Hp G) as (cs' & E & Hb).
  simpl in E. subst cs'.
  destruct (batch_spec known _ _ _ _ Hb Hp)
    as (Hp' & Hle & _ & Hin & Hsorted & _).
  assert (Hcs : Forall (fun c => p <= c /\ c mod 2 = 1 /\
                                 is_candidate known c = true) cs).
  { apply Forall_forall. intros c Hc. apply Hin in Hc.
    repeat split; try apply Hc. }
  destruct (np <? 1); [split; constructor|].
  destruct (pool_map (sched k) (lucas_lehmer_test_multiprocessing flag) cs)
    as [results| |]; [|now split..].
  destruct (first_mersenne results); [now split|].
  rewrite snd_let. simpl.
  destruct (IH (S k) p' Hp') as [IHs IHf]. split.
  - apply StronglySorted_app; try assumption.
    intros x y Hx Hy. apply Hin in Hx. rewrite Forall_forall in IHf.
    specialize (IHf y Hy). lia.
  - apply Forall_app. split; [assumption|].
    eapply Forall_impl; [|exact IHf]. simpl. intros c Hc. intuition lia.
Qed.

(** Checking a property on an interval by evaluation. *)
Definition zrange (lo : Z) (n : nat) : list Z :=
  map (fun i => lo + Z.of_nat i) (seq 0 n).

Lemma forallb_zrange (f : Z -> bool) (lo : Z) (n : nat) :
  forallb f (zrange lo n) = true ->
  forall r, lo <= r < lo + Z.of_nat n -> f r = true.
Proof.
  intros H r Hr. rewrite forallb_forall in H. apply H.
  unfold zrange. apply in_map_iff. exists (Z.to_nat (r - lo)).
  split; [lia|]. apply in_seq. lia.
Qed.

Definition first_hit_check (known : list Z) (p q : Z) : bool :=
  (p <=? q) && (q mod 2 =? 1) && is_candidate known q && big_verdict q
  && forallb (fun r => if (r mod 2 =? 1) && is_candidate known r
                       then negb (big_verdict r) else true)
             (zrange p (Z.to_nat (q - p))).

Lemma first_hit_check_sound (flag : bool) (known : list Z) (p q : Z) :
  first_hit_check known p q = true -> first_hit flag known p q.
Proof.
  unfold first_hit_check. rewrite !andb_true_iff.
  intros ((((H1 & H2) & H3) & H4) & H5).
  apply Z.leb_le in H1. apply Z.eqb_eq in H2.
  repeat split; try assumption.
  - now rewrite big_verdict_spec.
  - intros r Hr Hodd Hc. rewrite big_verdict_spec.
    pose proof (forallb_zrange _ _ _ H5 r ltac:(lia)) as Hf.
    cbv beta in Hf.
    apply Z.eqb_eq in Hodd. rewrite Hodd, Hc in Hf.
    now apply negb_true_iff in Hf.
Qed.

End Scheduler.

(** * The search of MERSENNE.py: which exponent is found *)

Section SearchClaims.
Import MERSENNE Generator LucasLehmer Scheduler.

Lemma find_next_unfold (flag : bool) (cpu : Z) (fuel : nat)
    (sched : nat -> list nat) (start : Z) (known : list Z)
    (num_processes : option Z) :
  find_next_mersenne_prime flag cpu fuel sched start known num_processes =
  find_loop flag fuel sched 0 known (default_processes cpu num_processes)
    (default_processes cpu num_processes * 2)
    (if (start + 1) mod 2 =? 0 then start + 1 + 1 else start + 1).
Proof. reflexivity. Qed.

Lemma prime_verdicts_128_520 :
  forallb (fun r => if is_prime r then negb (big_verdict r) else true)
          (zrange 128 393) = true.
Proof. vm_compute. reflexivity. Qed.

Lemma first_hit_129_521 : first_hit_check known_exponents 129 521 = true.
Proof. vm_compute. reflexivity. Qed.

End SearchClaims.

(** C1.  Started at 127 with the twelve seed exponents, the search returns
    the exponent 521 with the value 2^521 - 1, whatever the number of
    processes (at least one) and the order in which the workers finish;
    the Lucas-Lehmer test accepts 521 and rejects every prime strictly
    between 127 and 521. *)
Theorem next_after_127_is_521 (has_gmpy2 : bool) (cpu_count : Z)
    (sched : nat -> list nat) (num_processes : option Z) :
  1 <= MERSENNE.default_processes cpu_count num_processes ->
  (forall k, Permutation (sched k)
     (seq 0 (Z.to_nat (MERSENNE.default_processes cpu_count num_processes * 2)))) ->
  (exists fuel0, forall fuel, (fuel0 <= fuel)%nat ->
     snd (MERSENNE.find_next_mersenne_prime has_gmpy2 cpu_count fuel sched
            127 MERSENNE.known_exponents num_processes)
     = Done (2 ^ 521 - 1, 521))
  /\ MERSENNE.lucas_lehmer_test has_gmpy2 521 = Done true
  /\ forall p, 127 < p < 521 -> Z.prime p ->
       MERSENNE.lucas_lehmer_test has_gmpy2 p = Done false.
Proof.
  intros Hnp Hsched.
  pose proof (Scheduler.first_hit_check_sound has_gmpy2 _ _ _
                first_hit_129_521) as Hhit.
  split; [|split].
  - destruct (Scheduler.find_loop_total has_gmpy2 MERSENNE.known_exponents
                _ _ sched Hnp Hsched _ 521 129 (Nat.le_refl _)
                eq_refl Hhit ltac:(lia)) as [fuel0 H].
    exists fuel0. intros fuel Hf.
    rewrite find_next_unfold. apply (H fuel 0%nat Hf).
  - rewrite LucasLehmer.lucas_lehmer_test_nonneg by lia. f_equal.
    now destruct Hhit as (_ & _ & _ & Hv & _).
  - intros p Hp Hprime.
    rewrite LucasLehmer.lucas_lehmer_test_nonneg by lia. f_equal.
    rewrite LucasLehmer.big_verdict_spec.
    pose proof (Scheduler.forallb_zrange _ _ _ prime_verdicts_128_520 p
                  ltac:(lia)) as Hf. cbv beta in Hf.
    apply TrialDivision.is_prime_spec in Hprime. rewrite Hprime in Hf.
    now apply negb_true_iff in Hf.
Qed.

Lemma next_after_127_is_521_witness :
  1 <= MERSENNE.default_processes 4 None /\
  (forall k, Permutation ((fun _ : nat => rev (seq 0 8)) k)
     (seq 0 (Z.to_nat (MERSENNE.default_processes 4 None * 2)))) /\
  ((exists fuel0, forall fuel, (fuel0 <= fuel)%nat ->
     snd (MERSENNE.find_next_mersenne_prime true 4 fuel
            (fun _ : nat => rev (seq 0 8)) 127 MERSENNE.known_exponents None)
     = Done (2 ^ 521 - 1, 521))
  /\ MERSENNE.lucas_lehmer_test true 521 = Done true
  /\ forall p, 127 < p < 521 -> Z.prime p ->
       MERSENNE.lucas_lehmer_test true p = Done false).
Proof.
  assert (H1 : 1 <= MERSENNE.default_processes 4 None) by (simpl; lia).
  assert (H2 : forall k : nat, Permutation ((fun _ : nat => rev (seq 0 8)) k)
     (seq 0 (Z.to_nat (MERSENNE.default_processes 4 None * 2)))).
  { intros _. apply Permutation_sym, Permutation_rev. }
  exact (conj H1 (conj H2
           (next_after_127_is_521 true 4 (fun _ : nat => rev (seq 0 8)) None H1 H2))).
Defined.

(** C6.  On a completed batch the loop returns the smallest exponent of
    the batch whose Lucas-Lehmer verdict is true, whatever the order in
    which the workers finish; when no verdict of the batch is true it goes
    on with the next batch.  The loop has no other exit: it runs until a
    verdict is true. *)
Theorem batch_returns_smallest_true (has_gmpy2 : bool) (known : list Z)
    (num_processes batch_size : Z) (sched : nat -> list nat)
    (fuel k : nat) (p p' : Z) (candidates : list Z) :
  1 <= num_processes ->
  (forall j, Permutation (sched j) (seq 0 (Z.to_nat batch_size))) ->
  p mod 2 = 1 ->
  MERSENNE.gen_batch fuel known (Z.to_nat batch_size) [] p
    = Done (candidates, p') ->
  (forall q,
     In q candidates ->
     MERSENNE.lucas_lehmer_test has_gmpy2 q = Done true ->
     (forall c, In c candidates ->
                MERSENNE.lucas_lehmer_test has_gmpy2 c = Done true -> q <= c) ->
     snd (MERSENNE.find_loop has_gmpy2 (S fuel) sched k known num_processes
            batch_size p) = Done (2 ^ q - 1, q))
  /\ ((forall c, In c candidates ->
                 MERSENNE.lucas_lehmer_test has_gmpy2 c = Done false) ->
      MERSENNE.find_loop has_gmpy2 (S fuel) sched k known num_processes
        batch_size p
      = (candidates ++
           fst (MERSENNE.find_loop has_gmpy2 fuel sched (S k) known
                  num_processes batch_size p'),
         snd (MERSENNE.find_loop has_gmpy2 fuel sched (S k) known
                num_processes batch_size p')))
  /\ (forall fuel' k',
        snd (MERSENNE.find_loop has_gmpy2 fuel' sched k' known num_processes
               batch_size p) = OutOfFuel
        \/ exists q,
             snd (MERSENNE.find_loop has_gmpy2 fuel' sched k' known
                    num_processes batch_size p) = Done (2 ^ q - 1, q)
             /\ MERSENNE.lucas_lehmer_test has_gmpy2 q = Done true).
Proof.
  intros Hnp Hsched Hp Hg.
  destruct (Generator.gen_batch_sound known _ _ _ _ _ _ Hp Hg)
    as (cs' & E & Hb). simpl in E. subst cs'.
  destruct (Generator.batch_spec known _ _ _ _ Hb Hp)
    as (_ & _ & _ & Hin & Hsorted & _).
  pose proof (Scheduler.batch_nonneg known _ _ _ _ Hb Hp) as Hnn.
  rewrite Forall_forall in Hnn.
  assert (Htest : forall c, In c candidates ->
            MERSENNE.lucas_lehmer_test has_gmpy2 c
            = Done (LucasLehmer.verdict has_gmpy2 c)).
  { intros c Hc. apply LucasLehmer.lucas_lehmer_test_nonneg. now apply Hnn. }
  split; [|split].
  - intros q Hq Hv Hmin.
    rewrite (Scheduler.find_loop_step has_gmpy2 known _ _ sched Hnp Hsched
               _ _ _ _ _ Hp Hg).
    rewrite Htest in Hv by assumption. injection Hv as Hv.
    destruct (find (LucasLehmer.verdict has_gmpy2) candidates) as [q'|] eqn:F.
    + pose proof (find_some _ _ F) as [Hq' Hv'].
      assert (Hle : q <= q').
      { apply Hmin; [assumption|]. rewrite Htest by assumption. now f_equal. }
      destruct (Z.eq_dec q q') as [<-|N]; [reflexivity|].
      pose proof (Scheduler.find_sorted_before _ _ _ q Hsorted F Hq
                    ltac:(lia)). congruence.
    + pose proof (find_none _ _ F q Hq). congruence.
  - intros Hnone.
    rewrite (Scheduler.find_loop_step has_gmpy2 known _ _ sched Hnp Hsched
               _ _ _ _ _ Hp Hg).
    destruct (find (LucasLehmer.verdict has_gmpy2) candidates) as [q'|] eqn:F;
      [|reflexivity].
    pose proof (find_some _ _ F) as [Hq' Hv'].
    specialize (Hnone q' Hq'). rewrite Htest in Hnone by assumption.
    congruence.
  - intros fuel' k'.
    destruct (snd (MERSENNE.find_loop has_gmpy2 fuel' sched k' known
                     num_processes batch_size p)) as [r|e|] eqn:R.
    + right.
      destruct (Scheduler.find_loop_sound has_gmpy2 known _ _ sched Hnp
                  Hsched _ _ _ _ Hp R) as (q & -> & Hhit).
      exists q. split; [reflexivity|].
      destruct Hhit as (_ & _ & Hc & Hv & _).
      apply Generator.is_candidate_spec in Hc. destruct Hc as [_ Hc].
      apply TrialDivision.is_prime_ge_2 in Hc.
      rewrite LucasLehmer.lucas_lehmer_test_nonneg by lia. now f_equal.
    + exfalso. revert R.
      now apply (Scheduler.find_loop_no_raise has_gmpy2 known _ _ sched Hnp
                   Hsched).
    + now left.
Qed.

Lemma batch_returns_smallest_true_witness :
  1 <= 1 /\
  (forall j : nat, Permutation ((fun _ : nat => [1; 0]%nat) j)
                               (seq 0 (Z.to_nat 2))) /\
  129 mod 2 = 1 /\
  MERSENNE.gen_batch 5 MERSENNE.known_exponents (Z.to_nat 2) [] 129
    = Done ([131; 137], 139) /\
  ((forall q,
     In q [131; 137] ->
     MERSENNE.lucas_lehmer_test false q = Done true ->
     (forall c, In c [131; 137] ->
                MERSENNE.lucas_lehmer_test false c = Done true -> q <= c) ->
     snd (MERSENNE.find_loop false 6 (fun _ : nat => [1; 0]%nat) 0
            MERSENNE.known_exponents 1 2 129) = Done (2 ^ q - 1, q))
  /\ ((forall c, In c [131; 137] ->
                 MERSENNE.lucas_lehmer_test false c = Done false) ->
      MERSENNE.find_loop false 6 (fun _ : nat => [1; 0]%nat) 0
        MERSENNE.known_exponents 1 2 129
      = ([131; 137] ++
           fst (MERSENNE.find_loop false 5 (fun _ : nat => [1; 0]%nat) 1
                  MERSENNE.known_exponents 1 2 139),
         snd (MERSENNE.find_loop false 5 (fun _ : nat => [1; 0]%nat) 1
                MERSENNE.known_exponents 1 2 139)))
  /\ (forall fuel' k',
        snd (MERSENNE.find_loop false fuel' (fun _ : nat => [1; 0]%nat) k'
               MERSENNE.known_exponents 1 2 129) = OutOfFuel
        \/ exists q,
             snd (MERSENNE.find_loop false fuel' (fun _ : nat => [1; 0]%nat)
                    k' MERSENNE.known_exponents 1 2 129)
             = Done (2 ^ q - 1, q)
             /\ MERSENNE.lucas_lehmer_test false q = Done true)).
Proof.
  assert (H1 : 1 <= 1) by lia.
  assert (H2 : forall j : nat, Permutation ((fun _ : nat => [1; 0]%nat) j)
                                           (seq 0 (Z.to_nat 2))).
  { intros _. apply perm_swap. }
  assert (H3 : 129 mod 2 = 1) by reflexivity.
  assert (H4 : MERSENNE.gen_batch 5 MERSENNE.known_exponents (Z.to_nat 2)
                 [] 129 = Done ([131; 137], 139)) by (vm_compute; reflexivity).
  exact (conj H1 (conj H2 (conj H3 (conj H4
    (batch_returns_smallest_true false MERSENNE.known_exponents 1 2
       (fun _ : nat => [1; 0]%nat) 5 0 129 139 [131; 137] H1 H2 H3 H4))))).
Defined.

(** C7.  With one process and with eight processes the search returns
    the same pair, for every starting exponent and every list of known
    exponents and whatever the order in which the workers finish: two
    runs that return agree, and a run returns with one process exactly
    when it returns with eight. *)
Theorem parallelism_1_and_8_agree (has_gmpy2 : bool) (cpu_count : Z)
    (start : Z) (known : list Z) (sched1 sched8 : nat -> list nat) :
  (forall k, Permutation (sched1 k) (seq 0 2)) ->
  (forall k, Permutation (sched8 k) (seq 0 16)) ->
  (forall fuel1 fuel8 r1 r8,
     snd (MERSENNE.find_next_mersenne_prime has_gmpy2 cpu_count fuel1 sched1
            start known (Some 1)) = Done r1 ->
     snd (MERSENNE.find_next_mersenne_prime has_gmpy2 cpu_count fuel8 sched8
            start known (Some 8)) = Done r8 ->
     r1 = r8)
  /\ (forall r,
        (exists fuel1,
           snd (MERSENNE.find_next_mersenne_prime has_gmpy2 cpu_count fuel1
                  sched1 start known (Some 1)) = Done r) ->
        exists fuel0, forall fuel8, (fuel0 <= fuel8)%nat ->
          snd (MERSENNE.find_next_mersenne_prime has_gmpy2 cpu_count fuel8
                 sched8 start known (Some 8)) = Done r)
  /\ (forall r,
        (exists fuel8,
           snd (MERSENNE.find_next_mersenne_prime has_gmpy2 cpu_count fuel8
                  sched8 start known (Some 8)) = Done r) ->
        exists fuel0, forall fuel1, (fuel0 <= fuel1)%nat ->
          snd (MERSENNE.find_next_mersenne_prime has_gmpy2 cpu_count fuel1
                 sched1 start known (Some 1)) = Done r).
Proof.
  intros Hs1 Hs8.
  pose proof (Scheduler.first_odd_above start) as Hodd.
  assert (Hone : 1 <= 1) by lia. assert (Height : 1 <= 8) by lia.
  pose proof (Scheduler.find_loop_sound has_gmpy2 known 1 (1 * 2) sched1
                Hone Hs1) as S1.
  pose proof (Scheduler.find_loop_sound has_gmpy2 known 8 (8 * 2) sched8
                Height Hs8) as S8.
  split; [|split].
  - intros fuel1 fuel8 r1 r8 R1 R8. rewrite find_next_unfold in R1, R8.
    destruct (S1 _ _ _ _ Hodd R1) as (q1 & -> & Hit1).
    destruct (S8 _ _ _ _ Hodd R8) as (q8 & -> & Hit8).
    now rewrite (Scheduler.first_hit_unique _ _ _ _ _ Hit1 Hit8).
  - intros r [fuel1 R1]. rewrite find_next_unfold in R1.
    destruct (S1 _ _ _ _ Hodd R1) as (q & -> & Hit).
    destruct (Scheduler.find_loop_total has_gmpy2 known 8 (8 * 2) sched8
                Height Hs8 _ q _ (Nat.le_refl _) Hodd Hit ltac:(lia))
      as [fuel0 H].
    exists fuel0. intros fuel8 Hf. rewrite find_next_unfold. now apply H.
  - intros r [fuel8 R8]. rewrite find_next_unfold in R8.
    destruct (S8 _ _ _ _ Hodd R8) as (q & -> & Hit).
    destruct (Scheduler.find_loop_total has_gmpy2 known 1 (1 * 2) sched1
                Hone Hs1 _ q _ (Nat.le_refl _) Hodd Hit ltac:(lia))
      as [fuel0 H].
    exists fuel0. intros fuel1 Hf. rewrite find_next_unfold. now apply H.
Qed.

Lemma parallelism_1_and_8_agree_witness :
  (forall k : nat, Permutation ((fun _ : nat => [1; 0]%nat) k) (seq 0 2)) /\
  (forall k : nat, Permutation ((fun _ : nat => rev (seq 0 16)) k)
                               (seq 0 16)) /\
  ((forall fuel1 fuel8 r1 r8,
     snd (MERSENNE.find_next_mersenne_prime false 4 fuel1
            (fun _ : nat => [1; 0]%nat) 127 MERSENNE.known_exponents (Some 1))
     = Done r1 ->
     snd (MERSENNE.find_next_mersenne_prime false 4 fuel8
            (fun _ : nat => rev (seq 0 16)) 127 MERSENNE.known_exponents
            (Some 8)) = Done r8 ->
     r1 = r8)
  /\ (forall r,
        (exists fuel1,
           snd (MERSENNE.find_next_mersenne_prime false 4 fuel1
                  (fun _ : nat => [1; 0]%nat) 127 MERSENNE.known_exponents
                  (Some 1)) = Done r) ->
        exists fuel0, forall fuel8, (fuel0 <= fuel8)%nat ->
          snd (MERSENNE.find_next_mersenne_prime false 4 fuel8
                 (fun _ : nat => rev (seq 0 16)) 127 MERSENNE.known_exponents
                 (Some 8)) = Done r)
  /\ (forall r,
        (exists fuel8,
           snd (MERSENNE.find_next_mersenne_prime false 4 fuel8
                  (fun _ : nat => rev (seq 0 16)) 127 MERSENNE.known_exponents
                  (Some 8)) = Done r) ->
        exists fuel0, forall fuel1, (fuel0 <= fuel1)%nat ->
          snd (MERSENNE.find_next_mersenne_prime false 4 fuel1
                 (fun _ : nat => [1; 0]%nat) 127 MERSENNE.known_exponents
                 (Some 1)) = Done r)).
Proof.
  assert (H1 : forall k : nat,
            Permutation ((fun _ : nat => [1; 0]%nat) k) (seq 0 2)).
  { intros _. apply perm_swap. }
  assert (H8 : forall k : nat,
            Permutation ((fun _ : nat => rev (seq 0 16)) k) (seq 0 16)).
  { intros _. apply Permutation_sym, Permutation_rev. }
  exact (conj H1 (conj H8
    (parallelism_1_and_8_agree false 4 127 MERSENNE.known_exponents
       (fun _ : nat => [1; 0]%nat) (fun _ : nat => rev (seq 0 16)) H1 H8))).
Defined.

(** * Limb chunks of Mersenne_GPU.py *)

Module Chunks.
Import Mersenne_GPU.

(** The number a little-endian list of chunks stands for. *)
Fixpoint value (chunks : list Z) (chunk_size : Z) : Z :=
  match chunks with
  | [] => 0
  | c :: rest => c + 2 ^ chunk_size * value rest chunk_size
  end.

Lemma low_bits (number cs : Z) :
  0 <= cs -> Z.land number (1 * 2 ^ cs - 1) = number mod 2 ^ cs.
Proof.
  intros Hcs. rewrite <- Z.land_ones by assumption. f_equal.
  rewrite Z.ones_equiv. lia.
Qed.

Lemma split_loop_step (fuel : nat) (chunks : list Z) (number cs : Z) :
  0 <= cs -> number <> 0 ->
  split_loop (S fuel) chunks number cs
  = split_loop fuel (chunks ++ [number mod 2 ^ cs]) (number / 2 ^ cs) cs.
Proof.
  intros Hcs Hn. cbn [split_loop].
  destruct (Z.eqb_spec number 0); [contradiction|].
  rewrite py_shl_nonneg, py_shr_nonneg by assumption. cbn [bind].
  now rewrite low_bits.
Qed.

Lemma split_loop_sound (fuel : nat) : forall acc number cs r,
  1 <= cs -> split_loop fuel acc number cs = Done r ->
  exists chunks, r = acc ++ chunks
    /\ value chunks cs = number
    /\ Forall (fun c => 0 <= c <= 2 ^ cs - 1) chunks
    /\ (number <> 0 -> chunks <> []).
Proof.
  induction fuel as [|fuel IH]; intros acc number cs r Hcs; [discriminate|].
  destruct (Z.eq_dec number 0) as [->|Hn].
  - simpl. intros [= <-]. exists []. rewrite app_nil_r.
    repeat split; [constructor | congruence].
  - rewrite split_loop_step by (assumption || lia). intros H.
    apply IH in H; [|assumption].
    destruct H as (chunks & -> & Hv & Hall & _).
    exists (number mod 2 ^ cs :: chunks). rewrite <- app_assoc.
    assert (Hpow : 0 < 2 ^ cs) by (apply Z.pow_pos_nonneg; lia).
    repeat split.
    + simpl. rewrite Hv. pose proof (Z.div_mod number (2 ^ cs)). lia.
    + constructor; [|assumption].
      pose proof (Z.mod_pos_bound number (2 ^ cs) Hpow). lia.
    + discriminate.
Qed.

Lemma split_loop_total (fuel : nat) : forall acc number cs,
  1 <= cs -> 0 <= number < Z.of_nat fuel ->
  exists r, split_loop fuel acc number cs = Done r.
Proof.
  induction fuel as [|fuel IH]; intros acc number cs Hcs Hn; [lia|].
  destruct (Z.eq_dec number 0) as [->|Hne]; [simpl; eauto|].
  rewrite split_loop_step by (assumption || lia).
  apply IH; [assumption|].
  assert (Hpow : 1 < 2 ^ cs) by (apply Z.pow_gt_1; lia).
  pose proof (Z.div_lt number (2 ^ cs) ltac:(lia) Hpow).
  pose proof (Z.div_pos number (2 ^ cs) ltac:(lia) ltac:(lia)). lia.
Qed.

Lemma split_loop_mono (fuel : nat) : forall fuel' acc number cs r,
  (fuel <= fuel')%nat -> split_loop fuel acc number cs = Done r ->
  split_loop fuel' acc number cs = Done r.
Proof.
  induction fuel as [|fuel IH]; intros fuel' acc number cs r Hf;
    [discriminate|].
  destruct fuel' as [|fuel']; [lia|]. cbn [split_loop].
  destruct (number =? 0); [trivial|].
  destruct (py_shl 1 cs); try discriminate. cbn [bind].
  destruct (py_shr number cs); try discriminate. cbn [bind].
  apply IH. lia.
Qed.

(** On a negative number the loop condition stays true. *)
Lemma split_loop_negative (fuel : nat) : forall acc number cs,
  1 <= cs -> number < 0 -> split_loop fuel acc number cs = OutOfFuel.
Proof.
  induction fuel as [|fuel IH]; intros acc number cs Hcs Hn; [reflexivity|].
  rewrite split_loop_step by lia. apply IH; [assumption|].
  apply Z.div_lt_upper_bound; [apply Z.pow_pos_nonneg; lia | lia].
Qed.

(** With [chunk_size = 0] the shift leaves a non-zero number unchanged. *)
Lemma split_loop_zero_size (fuel : nat) : forall acc number,
  number <> 0 -> split_loop fuel acc number 0 = OutOfFuel.
Proof.
  induction fuel as [|fuel IH]; intros acc number Hn; [reflexivity|].
  rewrite split_loop_step by (assumption || lia).
  change (2 ^ 0) with 1. rewrite Z.div_1_r. now apply IH.
Qed.

Lemma lor_shifted (v c cs : Z) :
  0 <= cs -> 0 <= c <= 2 ^ cs - 1 -> Z.lor (v * 2 ^ cs) c = c + 2 ^ cs * v.
Proof.
  intros Hcs Hc.
  assert (Hland : Z.land (v * 2 ^ cs) c = 0).
  { apply Z.bits_inj'. intros i Hi. rewrite Z.land_spec, Z.bits_0.
    destruct (Z_lt_le_dec i cs) as [L|G].
    - rewrite Z.mul_pow2_bits_low by lia. reflexivity.
    - rewrite <- (Z.mod_small c (2 ^ cs)) by lia.
      rewrite Z.mod_pow2_bits_high by lia. apply andb_false_r. }
  rewrite <- Z.lxor_lor by assumption.
  rewrite <- Z.add_nocarry_lxor by assumption. lia.
Qed.

Lemma combine_chunks_value (chunks : list Z) (cs : Z) :
  0 <= cs -> Forall (fun c => 0 <= c <= 2 ^ cs - 1) chunks ->
  combine_chunks chunks cs = Done (value chunks cs).
Proof.
  intros Hcs Hall. unfold combine_chunks. rewrite <- fold_left_rev_right.
  rewrite rev_involutive.
  induction Hall as [|c chunks Hc _ IH]; [reflexivity|].
  cbn [fold_right value]. rewrite IH. cbn [bind].
  rewrite py_shl_nonneg by assumption. cbn [bind].
  now rewrite lor_shifted.
Qed.

End Chunks.

(** C5, as the code has it.  For a non-negative integer [M] and
    [chunk_size >= 1] (or [M = 0] and any [chunk_size]), [split_chunks]
    returns limbs that each lie in [[0, 2 ^ chunk_size - 1]] and
    [combine_chunks] of these limbs is [M]. *)
Theorem split_combine_roundtrip (M chunk_size : Z) :
  0 <= M -> M = 0 \/ 1 <= chunk_size ->
  exists chunks fuel0,
    (forall fuel, (fuel0 <= fuel)%nat ->
       Mersenne_GPU.split_chunks fuel M chunk_size = Done chunks)
    /\ Mersenne_GPU.combine_chunks chunks chunk_size = Done M
    /\ Forall (fun c => 0 <= c <= 2 ^ chunk_size - 1) chunks.
Proof.
  intros HM [->|Hcs].
  - exists [], 1%nat. split; [|split; [reflexivity|constructor]].
    intros [|fuel] Hf; [lia|reflexivity].
  - destruct (Chunks.split_loop_total (S (Z.to_nat M)) [] M chunk_size Hcs
                ltac:(lia)) as [r Hr].
    destruct (Chunks.split_loop_sound _ _ _ _ _ Hcs Hr)
      as (chunks & E & Hv & Hall & _). simpl in E. subst r.
    exists chunks, (S (Z.to_nat M)). split; [|split; [|assumption]].
    + intros fuel Hf. unfold Mersenne_GPU.split_chunks.
      now apply (Chunks.split_loop_mono (S (Z.to_nat M))).
    + rewrite Chunks.combine_chunks_value by (assumption || lia).
      now rewrite Hv.
Qed.

Lemma split_combine_roundtrip_witness :
  0 <= 2305843009213693951 /\
  (2305843009213693951 = 0 \/ 1 <= 30) /\
  exists chunks fuel0,
    (forall fuel, (fuel0 <= fuel)%nat ->
       Mersenne_GPU.split_chunks fuel 2305843009213693951 30 = Done chunks)
    /\ Mersenne_GPU.combine_chunks chunks 30 = Done 2305843009213693951
    /\ Forall (fun c => 0 <= c <= 2 ^ 30 - 1) chunks.
Proof.
  assert (H1 : 0 <= 2305843009213693951) by lia.
  assert (H2 : 2305843009213693951 = 0 \/ 1 <= 30) by (right; lia).
  exact (conj H1 (conj H2
           (split_combine_roundtrip 2305843009213693951 30 H1 H2))).
Defined.

(** C5 as stated fails: on [-1] the split never returns, with
    [chunk_size = 0] it never returns on [1], and with a negative
    [chunk_size] it raises. *)
Lemma roundtrip_fails_outside_domain :
  (~ exists fuel chunks,
       Mersenne_GPU.split_chunks fuel (-1) 30 = Done chunks
       /\ Mersenne_GPU.combine_chunks chunks 30 = Done (-1))
  /\ (~ exists fuel chunks,
       Mersenne_GPU.split_chunks fuel 1 0 = Done chunks
       /\ Mersenne_GPU.combine_chunks chunks 0 = Done 1)
  /\ (~ exists fuel chunks,
       Mersenne_GPU.split_chunks fuel 1 (-1) = Done chunks
       /\ Mersenne_GPU.combine_chunks chunks (-1) = Done 1).
Proof.
  split; [|split]; intros (fuel & chunks & H & _).
  - unfold Mersenne_GPU.split_chunks in H.
    rewrite Chunks.split_loop_negative in H by lia. discriminate.
  - unfold Mersenne_GPU.split_chunks in H.
    rewrite Chunks.split_loop_zero_size in H by lia. discriminate.
  - destruct fuel; discriminate.
Qed.

(** C10.  For [chunk_size >= 1], [split_chunks] returns exactly on the
    non-negative numbers; what it returns are limbs in
    [[0, 2 ^ chunk_size - 1]]; on a negative number the loop condition
    never becomes false. *)
Theorem split_chunks_terminates_iff_nonneg (number chunk_size : Z) :
  1 <= chunk_size ->
  ((exists fuel chunks,
      Mersenne_GPU.split_chunks fuel number chunk_size = Done chunks)
   <-> 0 <= number)
  /\ (forall fuel chunks,
        Mersenne_GPU.split_chunks fuel number chunk_size = Done chunks ->
        Forall (fun c => 0 <= c <= 2 ^ chunk_size - 1) chunks)
  /\ (number < 0 ->
      forall fuel,
        Mersenne_GPU.split_chunks fuel number chunk_size = OutOfFuel).
Proof.
  intros Hcs. split; [|split].
  - split.
    + intros (fuel & chunks & H).
      destruct (Z_lt_le_dec number 0) as [Hneg|]; [|assumption].
      unfold Mersenne_GPU.split_chunks in H.
      rewrite Chunks.split_loop_negative in H by assumption. discriminate.
    + intros Hn. exists (S (Z.to_nat number)).
      apply Chunks.split_loop_total; [assumption | lia].
  - intros fuel chunks H.
    destruct (Chunks.split_loop_sound _ _ _ _ _ Hcs H)
      as (chunks' & E & _ & Hall & _). simpl in E. now subst.
  - intros Hn fuel. now apply Chunks.split_loop_negative.
Qed.

Lemma split_chunks_terminates_iff_nonneg_witness :
  1 <= 30 /\
  (((exists fuel chunks, Mersenne_GPU.split_chunks fuel (-5) 30 = Done chunks)
    <-> 0 <= -5)
   /\ (forall fuel chunks,
         Mersenne_GPU.split_chunks fuel (-5) 30 = Done chunks ->
         Forall (fun c => 0 <= c <= 2 ^ 30 - 1) chunks)
   /\ (-5 < 0 ->
       forall fuel, Mersenne_GPU.split_chunks fuel (-5) 30 = OutOfFuel)).
Proof.
  assert (H : 1 <= 30) by lia.
  exact (conj H (split_chunks_terminates_iff_nonneg (-5) 30 H)).
Defined.

(** * The chunked-limb test of Mersenne_GPU.py *)

Module CudaPath.
Import Mersenne_GPU.

(** Whether some product [s * s] of the kernel's loop does not fit the
    [int64] accumulator. *)
Definition product_truncated (s : Z) : bool := negb (mul64 s s =? s * s).

Definition kernel_truncates (p : Z) (M_chunks : list Z) (chunk_size : Z)
  : bool :=
  let M := kernel_modulus M_chunks chunk_size in
  snd (for_range (Z.to_nat (p - 2))
         (fun st => (kernel_body M (fst st),
                     snd st || product_truncated (fst st)))
         (4, false)).

(** The modulus the kernel rebuilds is the number the chunks stand for,
    reduced to [int64]. *)
Lemma wrap64_add_l (a b : Z) : wrap64 (wrap64 a + b) = wrap64 (a + b).
Proof.
  unfold wrap64. f_equal.
  replace ((a + 2 ^ 63) mod 2 ^ 64 - 2 ^ 63 + b + 2 ^ 63)
    with ((a + 2 ^ 63) mod 2 ^ 64 + b) by lia.
  rewrite Zplus_mod_idemp_l. f_equal. lia.
Qed.

Lemma wrap64_add_r (a b : Z) : wrap64 (a + wrap64 b) = wrap64 (a + b).
Proof. now rewrite Z.add_comm, wrap64_add_l, Z.add_comm. Qed.

Lemma wrap64_small (z : Z) : - 2 ^ 63 <= z < 2 ^ 63 -> wrap64 z = z.
Proof. intros H. unfold wrap64. rewrite Z.mod_small; lia. Qed.

Lemma wrap64_parity (z : Z) : wrap64 z mod 2 = z mod 2.
Proof.
  unfold wrap64. pose proof (Z.div_mod (z + 2 ^ 63) (2 ^ 64) ltac:(lia)).
  change (2 ^ 64) with (2 * 2 ^ 63) in *.
  Z.div_mod_to_equations. lia.
Qed.

Lemma wrap64_idem (z : Z) : wrap64 (wrap64 z) = wrap64 z.
Proof.
  pose proof (wrap64_add_l z 0) as H. now rewrite !Z.add_0_r in H.
Qed.

Lemma kernel_modulus_fold (rest : list Z) : forall pre acc,
  wrap64 acc = acc ->
  Z.of_nat (length pre + length rest) < 2 ^ 58 ->
  fold_left
    (fun M i => add64 M (shl64 (nth i (pre ++ rest) 0)
                               (mul64 (Z.of_nat i) 30)))
    (seq (length pre) (length rest)) acc
  = wrap64 (acc + 2 ^ (30 * Z.of_nat (length pre)) * Chunks.value rest 30).
Proof.
  induction rest as [|c rest IH]; intros pre acc Hacc Hlen.
  - cbn [length seq fold_left Chunks.value].
    now rewrite Z.mul_0_r, Z.add_0_r, Hacc.
  - cbn [length seq fold_left Chunks.value].
    replace (pre ++ c :: rest) with ((pre ++ [c]) ++ rest)
      by (now rewrite <- app_assoc).
    replace (S (length pre)) with (length (pre ++ [c]))
      by (rewrite length_app; simpl; lia).
    rewrite IH;
      [| apply wrap64_idem | rewrite length_app; simpl in *; lia].
    rewrite app_nth1 by (rewrite length_app; simpl; lia).
    rewrite app_nth2, Nat.sub_diag by lia. cbn [nth].
    unfold add64, shl64, mul64.
    rewrite (wrap64_small (Z.of_nat (length pre) * 30))
      by (simpl in Hlen; lia).
    rewrite Z.shiftl_mul_pow2 by lia.
    rewrite wrap64_add_r, wrap64_add_l. f_equal.
    rewrite length_app. cbn [length].
    replace (30 * Z.of_nat (length pre + 1))
      with (30 * Z.of_nat (length pre) + 30) by lia.
    rewrite Z.pow_add_r by lia.
    replace (Z.of_nat (length pre) * 30) with (30 * Z.of_nat (length pre))
      by lia.
    ring.
Qed.

Lemma kernel_modulus_value (chunks : list Z) :
  Z.of_nat (length chunks) < 2 ^ 58 ->
  kernel_modulus chunks 30 = wrap64 (Chunks.value chunks 30).
Proof.
  intros Hlen. unfold kernel_modulus.
  pose proof (kernel_modulus_fold chunks [] 0 eq_refl Hlen) as H.
  cbn [app length] in H. rewrite H, Z.mul_0_r. change (2 ^ 0) with 1.
  f_equal. lia.
Qed.

(** So the kernel never divides by zero on the chunks of [2 ^ p - 1]. *)
Lemma kernel_modulus_nonzero (fuel : nat) (p : Z) (chunks : list Z) :
  1 <= p -> split_chunks fuel (2 ^ p - 1) 30 = Done chunks ->
  Z.of_nat (length chunks) < 2 ^ 58 ->
  kernel_modulus chunks 30 <> 0.
Proof.
  intros Hp Hs Hlen.
  destruct (Chunks.split_loop_sound fuel [] (2 ^ p - 1) 30 chunks
              ltac:(lia) Hs) as (chunks' & E & Hv & _). simpl in E. subst.
  rewrite kernel_modulus_value, Hv by assumption. intros H0.
  pose proof (wrap64_parity (2 ^ p - 1)) as Hpar. rewrite H0 in Hpar.
  replace p with (1 + (p - 1)) in Hpar by lia.
  rewrite Z.pow_add_r in Hpar by lia. change (2 ^ 1) with 2 in Hpar.
  change (0 mod 2) with 0 in Hpar.
  Z.div_mod_to_equations. lia.
Qed.

Lemma lucas_lehmer_test_cuda_mono (fuel fuel' : nat) (p : Z) (b : bool) :
  (fuel <= fuel')%nat ->
  lucas_lehmer_test_cuda fuel p = Done b ->
  lucas_lehmer_test_cuda fuel' p = Done b.
Proof.
  intros Hf. unfold lucas_lehmer_test_cuda.
  destruct (p =? 2); [trivial|].
  destruct (mersenne p) as [M| |]; try discriminate. cbn [bind].
  destruct (split_chunks fuel M 30) as [chunks| |] eqn:E; try discriminate.
  unfold split_chunks in *.
  now rewrite (Chunks.split_loop_mono _ _ _ _ _ _ Hf E).
Qed.

(** The test on a non-negative exponent never fails: it answers with the
    value the kernel left in [s_array[0]]. *)
Lemma lucas_lehmer_test_cuda_answers (p : Z) :
  2 <= p ->
  exists chunks fuel0,
    forall fuel, (fuel0 <= fuel)%nat ->
      split_chunks fuel (2 ^ p - 1) 30 = Done chunks
      /\ lucas_lehmer_test_cuda fuel p
         = Done (if p =? 2 then true
                 else lucas_lehmer_kernel_chunked p chunks 30 =? 0).
Proof.
  intros Hp.
  assert (Hpos : 0 < 2 ^ p - 1).
  { assert (1 < 2 ^ p) by (apply Z.pow_gt_1; lia). lia. }
  set (fuel0 := S (Z.to_nat (2 ^ p - 1))).
  destruct (Chunks.split_loop_total fuel0 [] (2 ^ p - 1) 30 ltac:(lia)
              ltac:(unfold fuel0; lia)) as [r Hr].
  destruct (Chunks.split_loop_sound fuel0 [] (2 ^ p - 1) 30 r ltac:(lia) Hr)
    as (chunks & E & _ & _ & Hne). simpl in E. subst r.
  exists chunks, fuel0. intros fuel Hf.
  assert (Hs : split_chunks fuel (2 ^ p - 1) 30 = Done chunks)
    by (now apply (Chunks.split_loop_mono fuel0)).
  split; [assumption|]. unfold lucas_lehmer_test_cuda.
  destruct (p =? 2); [reflexivity|].
  rewrite mersenne_nonneg by lia. cbn [bind]. rewrite Hs. cbn [bind].
  destruct chunks as [|c chunks]; [now specialize (Hne ltac:(lia))|].
  destruct (Z.eqb_spec ((Z.of_nat (length (c :: chunks)) + 32 - 1) / 32) 0)
    as [E|]; [|reflexivity].
  exfalso. cbn [length] in E.
  assert (1 <= (Z.of_nat (S (length chunks)) + 32 - 1) / 32)
    by (apply Z.div_le_lower_bound; lia). lia.
Qed.

(** Both paths on the exponents 2..31, where every product fits. *)
Definition agree_check (p : Z) : bool :=
  match split_chunks 3 (2 ^ p - 1) 30,
        lucas_lehmer_test_cuda 3 p,
        MERSENNE.lucas_lehmer_test false p with
  | Done chunks, Done a, Done b =>
      (lucas_lehmer_kernel_chunked p chunks 30
         =? MERSENNE.ll_residue false (2 ^ p - 1) p)
      && Bool.eqb a b
      && negb (kernel_truncates p chunks 30)
  | _, _, _ => false
  end.

Lemma agree_2_31 : forallb agree_check (Scheduler.zrange 2 30) = true.
Proof. vm_compute. reflexivity. Qed.

Lemma agree_check_sound (flag : bool) (p : Z) (fuel : nat) :
  agree_check p = true -> (3 <= fuel)%nat ->
  exists chunks,
    split_chunks fuel (2 ^ p - 1) 30 = Done chunks
    /\ lucas_lehmer_kernel_chunked p chunks 30
       = MERSENNE.ll_residue flag (2 ^ p - 1) p
    /\ lucas_lehmer_test_cuda fuel p = MERSENNE.lucas_lehmer_test flag p
    /\ kernel_truncates p chunks 30 = false.
Proof.
  unfold agree_check. intros H Hf.
  destruct (split_chunks 3 (2 ^ p - 1) 30) as [chunks| |] eqn:S3;
    try discriminate.
  destruct (lucas_lehmer_test_cuda 3 p) as [a| |] eqn:C3; try discriminate.
  destruct (MERSENNE.lucas_lehmer_test false p) as [b| |] eqn:L;
    try discriminate.
  rewrite !andb_true_iff in H. destruct H as [[H1 H2] H3].
  apply Z.eqb_eq in H1. apply Bool.eqb_prop in H2. subst b.
  apply negb_true_iff in H3.
  exists chunks. repeat split; try assumption.
  - now apply (Chunks.split_loop_mono 3).
  - rewrite H1. now rewrite !LucasLehmer.ll_residue_seq.
  - rewrite (lucas_lehmer_test_cuda_mono 3 fuel p a Hf C3).
    rewrite <- L. unfold MERSENNE.lucas_lehmer_test.
    destruct (p =? 2); [reflexivity|].
    destruct (mersenne p); try reflexivity. cbn [bind].
    now rewrite !LucasLehmer.ll_residue_seq.
Qed.

(** The kernel's loop as a sequence: [C 0 = 4] and [C (k+1)] is
    [C k * C k - 2], each operation reduced to [int64], modulo [M]. *)
Fixpoint cuda_seq (M : Z) (k : nat) : Z :=
  match k with
  | O => 4
  | S k' => sub64 (mul64 (cuda_seq M k') (cuda_seq M k')) 2 mod M
  end.

Lemma for_range_cuda_seq (M : Z) (n : nat) : forall k,
  for_range n (kernel_body M) (cuda_seq M k) = cuda_seq M (n + k).
Proof.
  induction n as [|n IH]; intros k; [reflexivity|].
  cbn [for_range]. change (kernel_body M (cuda_seq M k)) with (cuda_seq M (S k)).
  rewrite IH. f_equal. lia.
Qed.

Lemma kernel_is_cuda_seq (p : Z) (chunks : list Z) (cs : Z) :
  lucas_lehmer_kernel_chunked p chunks cs
  = cuda_seq (kernel_modulus chunks cs) (Z.to_nat (p - 2)).
Proof.
  unfold lucas_lehmer_kernel_chunked.
  change 4 with (cuda_seq (kernel_modulus chunks cs) 0).
  rewrite for_range_cuda_seq. f_equal. lia.
Qed.

End CudaPath.

(** C3, as the code has it.  For every exponent from 2 to 31, where each
    product of two residues fits the kernel's [int64], the chunked path
    leaves the same final residue as the arbitrary-precision path and
    returns the same verdict. *)
Theorem chunked_path_agrees_up_to_31 (has_gmpy2 : bool) (p : Z) (fuel : nat) :
  2 <= p <= 31 -> (3 <= fuel)%nat ->
  exists chunks,
    Mersenne_GPU.split_chunks fuel (2 ^ p - 1) 30 = Done chunks
    /\ Mersenne_GPU.lucas_lehmer_kernel_chunked p chunks 30
       = MERSENNE.ll_residue has_gmpy2 (2 ^ p - 1) p
    /\ Mersenne_GPU.lucas_lehmer_test_cuda fuel p
       = MERSENNE.lucas_lehmer_test has_gmpy2 p.
Proof.
  intros Hp Hf.
  pose proof (Scheduler.forallb_zrange _ _ _ CudaPath.agree_2_31 p
                ltac:(lia)) as Hc.
  destruct (CudaPath.agree_check_sound has_gmpy2 p fuel Hc Hf)
    as (chunks & H1 & H2 & H3 & _).
  exists chunks. now repeat split.
Qed.

Lemma chunked_path_agrees_up_to_31_witness :
  2 <= 31 <= 31 /\ (3 <= 3)%nat /\
  exists chunks,
    Mersenne_GPU.split_chunks 3 (2 ^ 31 - 1) 30 = Done chunks
    /\ Mersenne_GPU.lucas_lehmer_kernel_chunked 31 chunks 30
       = MERSENNE.ll_residue true (2 ^ 31 - 1) 31
    /\ Mersenne_GPU.lucas_lehmer_test_cuda 3 31
       = MERSENNE.lucas_lehmer_test true 31.
Proof.
  assert (H1 : 2 <= 31 <= 31) by lia.
  assert (H2 : (3 <= 3)%nat) by lia.
  exact (conj H1 (conj H2 (chunked_path_agrees_up_to_31 true 31 3 H1 H2))).
Defined.

(** C3 as stated fails.  At [p = 61] the modulus fits [int64] but the
    squares do not: the native path accepts 61 and the chunked path
    rejects it.  At [p = 67] the modulus exceeds a machine word: the
    native path rejects 67 and the chunked path accepts it. *)
Lemma chunked_path_disagrees_at_61_and_67 :
  MERSENNE.lucas_lehmer_test false 61 = Done true
  /\ Mersenne_GPU.lucas_lehmer_test_cuda 4 61 = Done false
  /\ MERSENNE.lucas_lehmer_test false 67 = Done false
  /\ Mersenne_GPU.lucas_lehmer_test_cuda 4 67 = Done true.
Proof. vm_compute. repeat split; reflexivity. Qed.

(** C2, as the code has it.  [lucas_lehmer_test 2] is true by the first
    test of the function; for any other exponent [p >= 2] the verdict is
    whether the term of index [p - 2] of the sequence [S 0 = 4],
    [S (k+1) = (S k ^ 2 - 2) mod (2 ^ p - 1)] is zero.
    [lucas_lehmer_test_cuda] has the same terminal case; for any other
    exponent [p >= 2] it runs the loop exactly [p - 2] times in the
    kernel's [int64] arithmetic, modulo the modulus rebuilt from the limbs,
    and its verdict is whether that value is zero.  Up to [p = 31] the
    kernel's value is the term [S (p - 2)] of the recurrence. *)
Theorem lucas_lehmer_recurrence_both_paths (has_gmpy2 : bool) (p : Z) :
  2 <= p ->
  (p = 2 -> MERSENNE.lucas_lehmer_test has_gmpy2 p = Done true)
  /\ (p <> 2 ->
      MERSENNE.ll_residue has_gmpy2 (2 ^ p - 1) p
        = LucasLehmer.ll_seq (2 ^ p - 1) (Z.to_nat (p - 2))
      /\ MERSENNE.lucas_lehmer_test has_gmpy2 p
         = Done (LucasLehmer.ll_seq (2 ^ p - 1) (Z.to_nat (p - 2)) =? 0))
  /\ (forall fuel, Mersenne_GPU.lucas_lehmer_test_cuda fuel 2 = Done true)
  /\ (p <> 2 ->
      exists chunks fuel0, forall fuel, (fuel0 <= fuel)%nat ->
        Mersenne_GPU.split_chunks fuel (2 ^ p - 1) 30 = Done chunks
        /\ Mersenne_GPU.lucas_lehmer_kernel_chunked p chunks 30
           = CudaPath.cuda_seq (Mersenne_GPU.kernel_modulus chunks 30)
               (Z.to_nat (p - 2))
        /\ Mersenne_GPU.lucas_lehmer_test_cuda fuel p
           = Done (CudaPath.cuda_seq (Mersenne_GPU.kernel_modulus chunks 30)
                     (Z.to_nat (p - 2)) =? 0))
  /\ (p <= 31 ->
      forall chunks fuel,
        Mersenne_GPU.split_chunks fuel (2 ^ p - 1) 30 = Done chunks ->
        CudaPath.cuda_seq (Mersenne_GPU.kernel_modulus chunks 30)
          (Z.to_nat (p - 2))
        = LucasLehmer.ll_seq (2 ^ p - 1) (Z.to_nat (p - 2))).
Proof.
  intros Hp. split; [|split; [|split; [|split]]].
  - intros ->. reflexivity.
  - intros Hne. split; [apply LucasLehmer.ll_residue_seq|].
    rewrite LucasLehmer.lucas_lehmer_test_nonneg by lia.
    unfold LucasLehmer.verdict.
    destruct (Z.eqb_spec p 2); [contradiction|].
    now rewrite LucasLehmer.ll_residue_seq.
  - reflexivity.
  - intros Hne.
    destruct (CudaPath.lucas_lehmer_test_cuda_answers p Hp)
      as (chunks & fuel0 & H).
    exists chunks, fuel0. intros fuel Hf.
    destruct (H fuel Hf) as [Hs Ht].
    split; [assumption|]. split; [apply CudaPath.kernel_is_cuda_seq|].
    rewrite Ht. destruct (Z.eqb_spec p 2); [contradiction|].
    now rewrite CudaPath.kernel_is_cuda_seq.
  - intros Hle chunks fuel Hs.
    pose proof (Scheduler.forallb_zrange _ _ _ CudaPath.agree_2_31 p
                  ltac:(lia)) as Hc.
    destruct (CudaPath.agree_check_sound false p (Nat.max 3 fuel) Hc
                ltac:(lia)) as (chunks' & H1 & H2 & _).
    assert (Hs' : Mersenne_GPU.split_chunks (Nat.max 3 fuel) (2 ^ p - 1) 30
                  = Done chunks).
    { unfold Mersenne_GPU.split_chunks in *.
      apply (Chunks.split_loop_mono fuel); [lia | assumption]. }
    assert (chunks' = chunks) by congruence. subst chunks'.
    rewrite <- CudaPath.kernel_is_cuda_seq, H2.
    apply LucasLehmer.ll_residue_seq.
Qed.

Lemma lucas_lehmer_recurrence_both_paths_witness :
  2 <= 7 /\
  ((7 = 2 -> MERSENNE.lucas_lehmer_test true 7 = Done true)
   /\ (7 <> 2 ->
       MERSENNE.ll_residue true (2 ^ 7 - 1) 7
         = LucasLehmer.ll_seq (2 ^ 7 - 1) (Z.to_nat (7 - 2))
       /\ MERSENNE.lucas_lehmer_test true 7
          = Done (LucasLehmer.ll_seq (2 ^ 7 - 1) (Z.to_nat (7 - 2)) =? 0))
   /\ (forall fuel, Mersenne_GPU.lucas_lehmer_test_cuda fuel 2 = Done true)
   /\ (7 <> 2 ->
       exists chunks fuel0, forall fuel, (fuel0 <= fuel)%nat ->
         Mersenne_GPU.split_chunks fuel (2 ^ 7 - 1) 30 = Done chunks
         /\ Mersenne_GPU.lucas_lehmer_kernel_chunked 7 chunks 30
            = CudaPath.cuda_seq (Mersenne_GPU.kernel_modulus chunks 30)
                (Z.to_nat (7 - 2))
         /\ Mersenne_GPU.lucas_lehmer_test_cuda fuel 7
            = Done (CudaPath.cuda_seq (Mersenne_GPU.kernel_modulus chunks 30)
                      (Z.to_nat (7 - 2)) =? 0))
   /\ (7 <= 31 ->
       forall chunks fuel,
         Mersenne_GPU.split_chunks fuel (2 ^ 7 - 1) 30 = Done chunks ->
         CudaPath.cuda_seq (Mersenne_GPU.kernel_modulus chunks 30)
           (Z.to_nat (7 - 2))
         = LucasLehmer.ll_seq (2 ^ 7 - 1) (Z.to_nat (7 - 2)))).
Proof.
  assert (H : 2 <= 7) by lia.
  exact (conj H (lucas_lehmer_recurrence_both_paths true 7 H)).
Defined.

(** C2 as stated fails for [lucas_lehmer_test_cuda].  At [p = 32] the
    value the kernel leaves is not the term [S 30] of the recurrence
    modulo [2 ^ 32 - 1]; at [p = 61] the term [S 59] of the recurrence is
    zero and the chunked test answers false. *)
Lemma chunked_path_leaves_recurrence_at_32 :
  Mersenne_GPU.split_chunks 3 (2 ^ 32 - 1) 30 = Done [1073741823; 3]
  /\ Mersenne_GPU.lucas_lehmer_kernel_chunked 32 [1073741823; 3] 30
     = 3576080729
  /\ LucasLehmer.ll_seq (2 ^ 32 - 1) (Z.to_nat (32 - 2)) = 3038229779
  /\ LucasLehmer.ll_seq (2 ^ 61 - 1) (Z.to_nat (61 - 2)) = 0
  /\ Mersenne_GPU.lucas_lehmer_test_cuda 4 61 = Done false.
Proof. vm_compute. repeat split; reflexivity. Qed.

(** C8, as the code has it.  The chunked-limb path has no overflow check:
    for every exponent [p >= 2] the test returns a verdict, never an
    error, namely whether the value that the [int64] kernel leaves in
    [s_array[0]] is zero.  Up to [p = 31] no product [s * s] is
    truncated. *)
Theorem chunked_path_always_answers (p : Z) :
  2 <= p ->
  exists chunks fuel0,
    (forall fuel, (fuel0 <= fuel)%nat ->
       Mersenne_GPU.split_chunks fuel (2 ^ p - 1) 30 = Done chunks
       /\ Mersenne_GPU.lucas_lehmer_test_cuda fuel p
          = Done (if p =? 2 then true
                  else Mersenne_GPU.lucas_lehmer_kernel_chunked p chunks 30
                       =? 0))
    /\ (p <= 31 -> CudaPath.kernel_truncates p chunks 30 = false).
Proof.
  intros Hp.
  destruct (CudaPath.lucas_lehmer_test_cuda_answers p Hp)
    as (chunks & fuel0 & H).
  exists chunks, fuel0. split; [assumption|]. intros Hle.
  pose proof (Scheduler.forallb_zrange _ _ _ CudaPath.agree_2_31 p
                ltac:(lia)) as Hc.
  destruct (CudaPath.agree_check_sound false p (Nat.max 3 fuel0) Hc
              ltac:(lia)) as (chunks' & H1 & _ & _ & H4).
  destruct (H (Nat.max 3 fuel0) ltac:(lia)) as [H1' _].
  congruence.
Qed.

Lemma chunked_path_always_answers_witness :
  2 <= 61 /\
  exists chunks fuel0,
    (forall fuel, (fuel0 <= fuel)%nat ->
       Mersenne_GPU.split_chunks fuel (2 ^ 61 - 1) 30 = Done chunks
       /\ Mersenne_GPU.lucas_lehmer_test_cuda fuel 61
          = Done (if 61 =? 2 then true
                  else Mersenne_GPU.lucas_lehmer_kernel_chunked 61 chunks 30
                       =? 0))
    /\ (61 <= 31 -> CudaPath.kernel_truncates 61 chunks 30 = false).
Proof.
  assert (H : 2 <= 61) by lia.
  exact (conj H (chunked_path_always_answers 61 H)).
Defined.

(** C8 as stated fails.  At [p = 61] a product of the loop does not fit
    [int64]; the test raises nothing and answers [false], although the
    arbitrary-precision test accepts 61. *)
Lemma overflow_unreported_at_61 :
  Mersenne_GPU.split_chunks 4 (2 ^ 61 - 1) 30
    = Done [1073741823; 1073741823; 1]
  /\ CudaPath.kernel_truncates 61 [1073741823; 1073741823; 1] 30 = true
  /\ Mersenne_GPU.lucas_lehmer_test_cuda 4 61 = Done false
  /\ MERSENNE.lucas_lehmer_test false 61 = Done true.
Proof. vm_compute. repeat split; reflexivity. Qed.

(** * Candidates of Mersenne_GPU.py *)

Module CudaSearch.
Import Mersenne_GPU.

Lemma not_1_or_5_mod_6_false (p : Z) :
  not_1_or_5_mod_6 p = false -> (p mod 6 = 1 \/ p mod 6 = 5) /\ p mod 2 = 1.
Proof.
  unfold not_1_or_5_mod_6. rewrite negb_false_iff, orb_true_iff.
  rewrite !Z.eqb_eq. intros H. split; [assumption|].
  Z.div_mod_to_equations. lia.
Qed.

Lemma cuda_find_loop_log (fuel : nat) : forall known p,
  StronglySorted Z.lt (fst (find_loop fuel known p)) /\
  Forall (fun c => p < c /\ c mod 2 = 1 /\ (c mod 6 = 1 \/ c mod 6 = 5)
                   /\ ~ In c known)
         (fst (find_loop fuel known p)).
Proof.
  induction fuel as [|fuel IH]; intros known p; [split; constructor|].
  cbn [find_loop].
  assert (Hweak : forall l,
    Forall (fun c => p + 1 < c /\ c mod 2 = 1 /\
                     (c mod 6 = 1 \/ c mod 6 = 5) /\ ~ In c known) l ->
    Forall (fun c => p < c /\ c mod 2 = 1 /\
                     (c mod 6 = 1 \/ c mod 6 = 5) /\ ~ In c known) l).
  { intros l. apply Forall_impl. intros c Hc. intuition lia. }
  destruct (IH known (p + 1)) as [IHs IHf].
  destruct (py_in (p + 1) known) eqn:Ein; [split; auto|].
  destruct (not_1_or_5_mod_6 (p + 1)) eqn:E6; [split; auto|].
  apply not_1_or_5_mod_6_false in E6. destruct E6 as [H6 H2].
  assert (Hhere : p < p + 1 /\ (p + 1) mod 2 = 1 /\
                  ((p + 1) mod 6 = 1 \/ (p + 1) mod 6 = 5) /\
                  ~ In (p + 1) known).
  { repeat split; try assumption; [lia|].
    intros Hin. apply py_in_spec in Hin. congruence. }
  assert (Hone : StronglySorted Z.lt [p + 1] /\
    Forall (fun c => p < c /\ c mod 2 = 1 /\
                     (c mod 6 = 1 \/ c mod 6 = 5) /\ ~ In c known) [p + 1]).
  { split.
    - apply SSorted_cons; [apply SSorted_nil | apply Forall_nil].
    - apply Forall_cons; [exact Hhere | apply Forall_nil]. }
  destruct (lucas_lehmer_test_cuda fuel (p + 1)) as [[|]| |];
    [exact Hone | | exact Hone | exact Hone].
  destruct (find_loop fuel known (p + 1)) as [more r]. cbn [fst] in *. split.
  - apply SSorted_cons; [assumption|].
    eapply Forall_impl; [|exact IHf]. cbv beta. intros c Hc. apply Hc.
  - apply Forall_cons; [exact Hhere | auto].
Qed.

End CudaSearch.

(** C4, as the code has it.  In MERSENNE.py every exponent handed to the
    pool is odd, greater than [start], not in the known list and accepted
    by [is_prime] (so it is prime), and the exponents are handed over in
    strictly increasing order.  In Mersenne_GPU.py every exponent passed
    to the test is congruent to 1 or 5 modulo 6 (so it is odd), greater
    than [start] and not in the known list, in strictly increasing order;
    that loop has no primality test. *)
Theorem submitted_exponents (has_gmpy2 : bool) (cpu_count : Z)
    (fuel : nat) (sched : nat -> list nat) (start : Z) (known : list Z)
    (num_processes : option Z) (gpu_fuel : nat) :
  (StronglySorted Z.lt
     (fst (MERSENNE.find_next_mersenne_prime has_gmpy2 cpu_count fuel sched
             start known num_processes))
   /\ Forall (fun c => start < c /\ c mod 2 = 1 /\ ~ In c known
                       /\ MERSENNE.is_prime c = true /\ Z.prime c)
        (fst (MERSENNE.find_next_mersenne_prime has_gmpy2 cpu_count fuel
                sched start known num_processes)))
  /\ (StronglySorted Z.lt
        (fst (Mersenne_GPU.find_next_mersenne_prime gpu_fuel start known))
      /\ Forall (fun c => start < c /\ c mod 2 = 1
                          /\ (c mod 6 = 1 \/ c mod 6 = 5) /\ ~ In c known)
           (fst (Mersenne_GPU.find_next_mersenne_prime gpu_fuel start known))).
Proof.
  split.
  - rewrite find_next_unfold.
    destruct (Scheduler.find_loop_log has_gmpy2 sched known
                (MERSENNE.default_processes cpu_count num_processes)
                (MERSENNE.default_processes cpu_count num_processes * 2)
                fuel 0 _ (Scheduler.first_odd_above start)) as [Hs Hf].
    split; [assumption|].
    eapply Forall_impl; [|exact Hf]. cbv beta. intros c (Hc & Hodd & Hcand).
    apply Generator.is_candidate_spec in Hcand. destruct Hcand as [Hk Hp].
    split; [|split; [|split; [|split]]]; try assumption.
    + destruct (Z.eqb_spec ((start + 1) mod 2) 0); lia.
    + now apply TrialDivision.is_prime_spec.
  - apply CudaSearch.cuda_find_loop_log.
Qed.

(** C4 as stated fails for Mersenne_GPU.py: started at 23 it passes the
    composite 25 to the test. *)
Lemma gpu_submits_composite_25 :
  fst (Mersenne_GPU.find_next_mersenne_prime 10 23
         Mersenne_GPU.known_exponents) = [25; 29]
  /\ MERSENNE.is_prime 25 = false
  /\ ~ Z.prime 25.
Proof.
  split; [vm_compute; reflexivity|]. split; [vm_compute; reflexivity|].
  intros H. apply TrialDivision.is_prime_spec in H. vm_compute in H.
  discriminate.
Qed.

(** C9, as the code has it.  For every [p >= 0]: the verifier of
    MERSENNE.py asks the oracle only when gmpy2 is present and [p < 100];
    from 100 on, and everywhere when gmpy2 is absent, it returns true
    whatever the oracle says.  The verifier of Mersenne_GPU.py has no
    threshold: it returns the oracle's answer for every [p >= 0]. *)
Theorem verifier_threshold (has_gmpy2 : bool) (gmpy2_is_prime : Z -> bool)
    (p : Z) :
  0 <= p ->
  (100 <= p ->
   MERSENNE.verify_mersenne_prime has_gmpy2 gmpy2_is_prime p = Done true)
  /\ (p < 100 ->
      MERSENNE.verify_mersenne_prime has_gmpy2 gmpy2_is_prime p
      = Done (if has_gmpy2 then gmpy2_is_prime (2 ^ p - 1) else true))
  /\ Mersenne_GPU.verify_mersenne_prime gmpy2_is_prime p
     = Done (gmpy2_is_prime (2 ^ p - 1)).
Proof.
  intros Hp.
  unfold MERSENNE.verify_mersenne_prime, Mersenne_GPU.verify_mersenne_prime.
  rewrite mersenne_nonneg by assumption. cbn [bind].
  split; [|split; [|reflexivity]]; intros H.
  - destruct (Z.ltb_spec p 100); [lia|]. now rewrite andb_false_r.
  - destruct (Z.ltb_spec p 100); [|lia]. now destruct has_gmpy2.
Qed.

Lemma verifier_threshold_witness :
  0 <= 127 /\
  ((100 <= 127 ->
    MERSENNE.verify_mersenne_prime true (fun _ : Z => false) 127 = Done true)
   /\ (127 < 100 ->
       MERSENNE.verify_mersenne_prime true (fun _ : Z => false) 127
       = Done (if true then (fun _ : Z => false) (2 ^ 127 - 1) else true))
   /\ Mersenne_GPU.verify_mersenne_prime (fun _ : Z => false) 127
      = Done ((fun _ : Z => false) (2 ^ 127 - 1))).
Proof.
  assert (H : 0 <= 127) by lia.
  exact (conj H (verifier_threshold true (fun _ : Z => false) 127 H)).
Defined.

(** C9 as stated fails for Mersenne_GPU.py: whatever the threshold, its
    verifier does not return true unconditionally above it. *)
Lemma gpu_verifier_has_no_threshold :
  ~ exists threshold,
      forall (gmpy2_is_prime : Z -> bool) (p : Z),
        threshold <= p ->
        Mersenne_GPU.verify_mersenne_prime gmpy2_is_prime p = Done true.
Proof.
  intros [threshold H].
  specialize (H (fun _ => false) (Z.max threshold 0) ltac:(lia)).
  unfold Mersenne_GPU.verify_mersenne_prime in H.
  rewrite mersenne_nonneg in H by lia. discriminate.
Qed.

(** * Further properties of MERSENNE.py *)

Module PrimalityMore.
Import MERSENNE TrialDivision LucasLehmer.

Lemma is_prime_loop_mono (fuel : nat) : forall fuel' n i b,
  (fuel <= fuel')%nat -> is_prime_loop fuel n i = Done b ->
  is_prime_loop fuel' n i = Done b.
Proof.
  induction fuel as [|fuel IH]; intros fuel' n i b Hf; [discriminate|].
  destruct fuel' as [|fuel']; [lia|]. simpl.
  destruct (i * i <=? n); [|trivial].
  destruct ((n mod i =? 0) || (n mod (i + 2) =? 0)); [trivial|].
  apply IH. lia.
Qed.

Lemma is_prime_run_mono (fuel fuel' : nat) (n : Z) (b : bool) :
  (fuel <= fuel')%nat -> is_prime_run fuel n = Done b ->
  is_prime_run fuel' n = Done b.
Proof.
  intros Hf. unfold is_prime_run.
  destruct (n <=? 1); [trivial|]. destruct (n <=? 3); [trivial|].
  destruct ((n mod 2 =? 0) || (n mod 3 =? 0)); [trivial|].
  now apply is_prime_loop_mono.
Qed.

Lemma is_prime_run_bounded (fuel : nat) (n : Z) :
  (1 <= fuel)%nat -> n < (6 * Z.of_nat fuel - 1) ^ 2 ->
  exists b, is_prime_run fuel n = Done b.
Proof.
  intros Hf Hn. unfold is_prime_run.
  destruct (n <=? 1); [eauto|]. destruct (n <=? 3); [eauto|].
  destruct ((n mod 2 =? 0) || (n mod 3 =? 0)); [eauto|].
  apply loop_total; [lia | lia |].
  replace (5 + 6 * (Z.of_nat fuel - 1)) with (6 * Z.of_nat fuel - 1) by lia.
  assumption.
Qed.

Lemma lucas_lehmer_test_flag (a b : bool) (p : Z) :
  lucas_lehmer_test a p = lucas_lehmer_test b p.
Proof.
  unfold lucas_lehmer_test. destruct (p =? 2); [reflexivity|].
  destruct (mersenne p); try reflexivity. cbn [bind].
  now rewrite !ll_residue_seq.
Qed.

Lemma lucas_lehmer_test_negative (flag : bool) (p : Z) :
  p < 0 -> lucas_lehmer_test flag p = Raise ValueError.
Proof.
  intros Hp. unfold lucas_lehmer_test, mersenne, py_shl.
  destruct (Z.eqb_spec p 2); [lia|].
  destruct (Z.ltb_spec p 0); [reflexivity | lia].
Qed.

(** After one turn of the loop the residue is reduced modulo [M]. *)
Lemma for_range_reduced (flag : bool) (M : Z) (n : nat) : forall s,
  0 < M -> (1 <= n)%nat -> 0 <= for_range n (ll_body flag M) s < M.
Proof.
  induction n as [|n IH]; intros s HM Hn; [lia|].
  cbn [for_range]. destruct n as [|n].
  - cbn [for_range]. rewrite ll_body_flag. now apply Z.mod_pos_bound.
  - apply IH; [assumption | lia].
Qed.

End PrimalityMore.

(** X1.  [is_prime] decides primality on every integer: it answers true
    exactly on the primes (so false on every [n <= 1], negative numbers
    included). *)
Theorem is_prime_decides_primality (n : Z) :
  MERSENNE.is_prime n = true <-> Z.prime n.
Proof. apply TrialDivision.is_prime_spec. Qed.

(** X2.  The [while i * i <= n] loop of [is_prime] ends within [k] turns
    as soon as [n < (6 k - 1) ^ 2]: a run with that many turns returns the
    answer of [is_prime]. *)
Theorem is_prime_loop_bound (n : Z) (k : nat) :
  (1 <= k)%nat -> n < (6 * Z.of_nat k - 1) ^ 2 ->
  MERSENNE.is_prime_run k n = Done (MERSENNE.is_prime n).
Proof.
  intros Hk Hn.
  destruct (PrimalityMore.is_prime_run_bounded k n Hk Hn) as [b Hb].
  pose proof (TrialDivision.is_prime_run_eq n) as He.
  apply (PrimalityMore.is_prime_run_mono _ (Nat.max k (Z.to_nat n)))
    in He; [|lia].
  assert (Hle : (k <= Nat.max k (Z.to_nat n))%nat) by lia.
  pose proof (PrimalityMore.is_prime_run_mono k _ n b Hle Hb) as Hb'.
  congruence.
Qed.

Lemma is_prime_loop_bound_witness :
  (1 <= 17)%nat /\ 10007 < (6 * Z.of_nat 17 - 1) ^ 2 /\
  MERSENNE.is_prime_run 17 10007 = Done (MERSENNE.is_prime 10007).
Proof.
  assert (H1 : (1 <= 17)%nat) by lia.
  assert (H2 : 10007 < (6 * Z.of_nat 17 - 1) ^ 2) by (simpl; lia).
  exact (conj H1 (conj H2 (is_prime_loop_bound 10007 17 H1 H2))).
Defined.

(** X3.  [is_mersenne_prime] never raises: it tests [is_prime(p)] before
    it shifts, so a negative [p], on which [lucas_lehmer_test] raises
    [ValueError], is answered false.  Its answer is true exactly when [p]
    is prime and [lucas_lehmer_test(p)] is true. *)
Theorem is_mersenne_prime_never_raises (has_gmpy2 : bool) (p : Z) :
  (exists b, MERSENNE.is_mersenne_prime has_gmpy2 p = Done b)
  /\ (MERSENNE.is_mersenne_prime has_gmpy2 p = Done true
      <-> Z.prime p /\ MERSENNE.lucas_lehmer_test has_gmpy2 p = Done true)
  /\ (p < 0 -> MERSENNE.lucas_lehmer_test has_gmpy2 p = Raise ValueError
               /\ MERSENNE.is_mersenne_prime has_gmpy2 p = Done false).
Proof.
  unfold MERSENNE.is_mersenne_prime.
  destruct (MERSENNE.is_prime p) eqn:E; cbn [negb].
  - pose proof (TrialDivision.is_prime_ge_2 p E) as Hp.
    rewrite LucasLehmer.lucas_lehmer_test_nonneg by lia.
    split; [eauto|]. split; [|lia].
    apply TrialDivision.is_prime_spec in E. tauto.
  - split; [eauto|]. split.
    + split; [discriminate|]. intros [Hp _].
      apply TrialDivision.is_prime_spec in Hp. congruence.
    + intros Hp. split; [|reflexivity].
      now apply PrimalityMore.lucas_lehmer_test_negative.
Qed.

(** X4.  For [p >= 3] the residue that [lucas_lehmer_test] compares with
    0 lies in [[0, 2 ^ p - 1)]: every turn of the loop reduces modulo the
    Mersenne number. *)
Theorem lucas_lehmer_residue_reduced (has_gmpy2 : bool) (p : Z) :
  3 <= p ->
  0 <= MERSENNE.ll_residue has_gmpy2 (2 ^ p - 1) p < 2 ^ p - 1.
Proof.
  intros Hp. unfold MERSENNE.ll_residue.
  apply PrimalityMore.for_range_reduced; [|lia].
  assert (1 < 2 ^ p) by (apply Z.pow_gt_1; lia). lia.
Qed.

Lemma lucas_lehmer_residue_reduced_witness :
  3 <= 11 /\ 0 <= MERSENNE.ll_residue true (2 ^ 11 - 1) 11 < 2 ^ 11 - 1.
Proof.
  assert (H : 3 <= 11) by lia.
  exact (conj H (lucas_lehmer_residue_reduced true 11 H)).
Defined.

Module SearchMore.
Import MERSENNE TrialDivision Generator LucasLehmer Scheduler.

Lemma pool_map_ext {A B : Type} (finish : list nat) (f g : A -> result B)
    (xs : list A) :
  (forall x, f x = g x) -> pool_map finish f xs = pool_map finish g xs.
Proof.
  intros Hfg. unfold pool_map, arrivals. do 3 f_equal.
  apply flat_map_ext. intros i. destruct (nth_error xs i); [|reflexivity].
  now rewrite Hfg.
Qed.

Lemma find_loop_flag (a b : bool) (fuel : nat) : forall sched k known np bs p,
  find_loop a fuel sched k known np bs p
  = find_loop b fuel sched k known np bs p.
Proof.
  induction fuel as [|fuel IH]; intros sched k known np bs p; [reflexivity|].
  cbn [find_loop].
  destruct (gen_batch fuel known (Z.to_nat bs) [] p) as [[cs p']| |];
    try reflexivity.
  destruct (np <? 1); [reflexivity|].
  rewrite (pool_map_ext (sched k) (lucas_lehmer_test_multiprocessing a)
             (lucas_lehmer_test_multiprocessing b)).
  - destruct (pool_map (sched k) (lucas_lehmer_test_multiprocessing b) cs)
      as [results| |]; try reflexivity.
    destruct (first_mersenne results); [reflexivity|]. now rewrite IH.
  - intros x. unfold lucas_lehmer_test_multiprocessing.
    now rewrite (PrimalityMore.lucas_lehmer_test_flag a b).
Qed.

Lemma above_start (start r : Z) :
  start < r -> r mod 2 = 1 ->
  (if (start + 1) mod 2 =? 0 then start + 1 + 1 else start + 1) <= r.
Proof.
  intros Hr Hodd. destruct (Z.eqb_spec ((start + 1) mod 2) 0) as [E|N]; [|lia].
  assert (r <> start + 1) by (intros ->; lia). lia.
Qed.

Lemma start_below (start : Z) :
  start < (if (start + 1) mod 2 =? 0 then start + 1 + 1 else start + 1).
Proof. destruct ((start + 1) mod 2 =? 0); lia. Qed.

Definition seed_check (p : Z) : bool :=
  Bool.eqb (match is_mersenne_prime false p with
            | Done b => b
            | _ => false
            end)
           (py_in p known_exponents).

Lemma seed_check_0_127 : forallb seed_check (zrange 0 128) = true.
Proof. vm_compute. reflexivity. Qed.

End SearchMore.

(** X5.  The search does not depend on whether gmpy2 was imported: both
    branches of the Lucas-Lehmer loop compute the same residue, so the
    verdicts, the exponents handed to the pool and the outcome are the
    same. *)
Theorem search_independent_of_gmpy2 (cpu_count : Z) (fuel : nat)
    (sched : nat -> list nat) (start : Z) (known : list Z)
    (num_processes : option Z) (p : Z) :
  MERSENNE.lucas_lehmer_test true p = MERSENNE.lucas_lehmer_test false p
  /\ MERSENNE.find_next_mersenne_prime true cpu_count fuel sched start known
       num_processes
     = MERSENNE.find_next_mersenne_prime false cpu_count fuel sched start
         known num_processes.
Proof.
  split; [apply PrimalityMore.lucas_lehmer_test_flag|].
  rewrite !find_next_unfold. apply SearchMore.find_loop_flag.
Qed.

(** X6.  With at least one process the search never raises, and when it
    returns [(v, q)] then [v = 2 ^ q - 1] and [q] is the least odd prime
    above [start] outside the known list that the Lucas-Lehmer test
    accepts, over all batches: every smaller such prime was rejected.
    The exponent is odd, so 2 is never returned. *)
Theorem search_returns_least (has_gmpy2 : bool) (cpu_count : Z)
    (sched : nat -> list nat) (start : Z) (known : list Z)
    (num_processes : option Z) :
  1 <= MERSENNE.default_processes cpu_count num_processes ->
  (forall k, Permutation (sched k)
     (seq 0 (Z.to_nat (MERSENNE.default_processes cpu_count num_processes * 2)))) ->
  (forall fuel e,
     snd (MERSENNE.find_next_mersenne_prime has_gmpy2 cpu_count fuel sched
            start known num_processes) <> Raise e)
  /\ (forall fuel v q,
        snd (MERSENNE.find_next_mersenne_prime has_gmpy2 cpu_count fuel sched
               start known num_processes) = Done (v, q) ->
        v = 2 ^ q - 1 /\ start < q /\ q mod 2 = 1 /\ ~ In q known
        /\ Z.prime q
        /\ MERSENNE.lucas_lehmer_test has_gmpy2 q = Done true
        /\ forall r, start < r < q -> r mod 2 = 1 -> ~ In r known ->
                     Z.prime r ->
                     MERSENNE.lucas_lehmer_test has_gmpy2 r = Done false).
Proof.
  intros Hnp Hsched.
  pose proof (Scheduler.first_odd_above start) as Hodd. split.
  - intros fuel e. rewrite find_next_unfold.
    now apply (Scheduler.find_loop_no_raise has_gmpy2 known _ _ sched Hnp
                 Hsched).
  - intros fuel v q H. rewrite find_next_unfold in H.
    destruct (Scheduler.find_loop_sound has_gmpy2 known _ _ sched Hnp Hsched
                _ _ _ _ Hodd H) as (q' & [= -> ->] & Hhit).
    destruct Hhit as (H1 & H2 & H3 & H4 & H5).
    apply Generator.is_candidate_spec in H3. destruct H3 as [Hk Hp].
    pose proof (TrialDivision.is_prime_ge_2 _ Hp) as Hge.
    pose proof (SearchMore.start_below start) as Hlt.
    split; [reflexivity|]. split; [lia|]. split; [assumption|].
    split; [assumption|]. split; [now apply TrialDivision.is_prime_spec|].
    split.
    + rewrite LucasLehmer.lucas_lehmer_test_nonneg by lia. now f_equal.
    + intros r Hr Hro Hrk Hrp.
      apply TrialDivision.is_prime_spec in Hrp.
      pose proof (TrialDivision.is_prime_ge_2 _ Hrp) as Hrge.
      rewrite LucasLehmer.lucas_lehmer_test_nonneg by lia. f_equal.
      apply H5; try assumption.
      * split; [|lia]. apply SearchMore.above_start; [lia|assumption].
      * apply Generator.is_candidate_spec. now split.
Qed.

Lemma search_returns_least_witness :
  1 <= MERSENNE.default_processes 4 (Some 2) /\
  (forall k : nat, Permutation ((fun _ : nat => seq 0 4) k)
     (seq 0 (Z.to_nat (MERSENNE.default_processes 4 (Some 2) * 2)))) /\
  ((forall fuel e,
     snd (MERSENNE.find_next_mersenne_prime true 4 fuel
            (fun _ : nat => seq 0 4) 0 [] (Some 2)) <> Raise e)
  /\ (forall fuel v q,
        snd (MERSENNE.find_next_mersenne_prime true 4 fuel
               (fun _ : nat => seq 0 4) 0 [] (Some 2)) = Done (v, q) ->
        v = 2 ^ q - 1 /\ 0 < q /\ q mod 2 = 1 /\ ~ In q []
        /\ Z.prime q
        /\ MERSENNE.lucas_lehmer_test true q = Done true
        /\ forall r, 0 < r < q -> r mod 2 = 1 -> ~ In r [] ->
                     Z.prime r ->
                     MERSENNE.lucas_lehmer_test true r = Done false)).
Proof.
  assert (H1 : 1 <= MERSENNE.default_processes 4 (Some 2)) by (simpl; lia).
  assert (H2 : forall k : nat, Permutation ((fun _ : nat => seq 0 4) k)
     (seq 0 (Z.to_nat (MERSENNE.default_processes 4 (Some 2) * 2)))).
  { intros _. apply Permutation_refl. }
  exact (conj H1 (conj H2
    (search_returns_least true 4 (fun _ : nat => seq 0 4) 0 [] (Some 2)
       H1 H2))).
Defined.

(** X7.  With a number of processes below 1 the batch is empty and
    [Pool(num_processes)] raises [ValueError]: the search raises on its
    first turn and hands no exponent to any test. *)
Theorem search_without_process_raises (has_gmpy2 : bool) (cpu_count : Z)
    (fuel : nat) (sched : nat -> list nat) (start : Z) (known : list Z)
    (num_processes : option Z) :
  MERSENNE.default_processes cpu_count num_processes < 1 ->
  MERSENNE.find_next_mersenne_prime has_gmpy2 cpu_count (S fuel) sched start
    known num_processes = ([], Raise ValueError).
Proof.
  intros Hnp. rewrite find_next_unfold. cbn [MERSENNE.find_loop].
  replace (Z.to_nat (MERSENNE.default_processes cpu_count num_processes * 2))
    with 0%nat by lia.
  cbn [MERSENNE.gen_batch].
  destruct (Z.ltb_spec (MERSENNE.default_processes cpu_count num_processes) 1);
    [reflexivity | lia].
Qed.

Lemma search_without_process_raises_witness :
  MERSENNE.default_processes 8 (Some 0) < 1 /\
  MERSENNE.find_next_mersenne_prime true 8 (S 5) (fun _ : nat => [])
    127 MERSENNE.known_exponents (Some 0) = ([], Raise ValueError).
Proof.
  assert (H : MERSENNE.default_processes 8 (Some 0) < 1) by (simpl; lia).
  exact (conj H
    (search_without_process_raises true 8 5 (fun _ : nat => []) 127
       MERSENNE.known_exponents (Some 0) H)).
Defined.

(** X8.  The seed list of [main] is exactly the set of exponents up to
    127 that [is_mersenne_prime] accepts: no seed is wrong and none is
    missing below the starting point of the search. *)
Theorem seed_list_is_exact (has_gmpy2 : bool) (p : Z) :
  p <= 127 ->
  (MERSENNE.is_mersenne_prime has_gmpy2 p = Done true
   <-> In p MERSENNE.known_exponents).
Proof.
  intros Hp.
  assert (Hflag : MERSENNE.is_mersenne_prime has_gmpy2 p
                  = MERSENNE.is_mersenne_prime false p).
  { unfold MERSENNE.is_mersenne_prime.
    now rewrite (PrimalityMore.lucas_lehmer_test_flag has_gmpy2 false). }
  rewrite Hflag. rewrite <- py_in_spec.
  destruct (Z_lt_le_dec p 0) as [Hneg|Hnn].
  - unfold MERSENNE.is_mersenne_prime.
    destruct (MERSENNE.is_prime p) eqn:E.
    + apply TrialDivision.is_prime_ge_2 in E. lia.
    + cbn [negb]. split; [discriminate|]. intros Hin.
      apply py_in_spec in Hin. unfold MERSENNE.known_exponents in Hin.
      simpl in Hin. lia.
  - pose proof (Scheduler.forallb_zrange _ _ _ SearchMore.seed_check_0_127 p
                  ltac:(lia)) as Hc.
    unfold SearchMore.seed_check in Hc. apply Bool.eqb_prop in Hc.
    rewrite <- Hc.
    destruct (MERSENNE.is_mersenne_prime false p) as [b| |];
      split; congruence.
Qed.

Lemma seed_list_is_exact_witness :
  89 <= 127 /\
  (MERSENNE.is_mersenne_prime true 89 = Done true
   <-> In 89 MERSENNE.known_exponents).
Proof.
  assert (H : 89 <= 127) by lia.
  exact (conj H (seed_list_is_exact true 89 H)).
Defined.

(** X9.  A batch holds exactly the requested number of exponents: all the
    odd primes outside the known list between the position where the
    batch starts and the position where the next batch starts, none
    skipped, in increasing order. *)
Theorem batch_is_contiguous (fuel n : nat) (known : list Z) (p p' : Z)
    (candidates : list Z) :
  p mod 2 = 1 ->
  MERSENNE.gen_batch fuel known n [] p = Done (candidates, p') ->
  length candidates = n
  /\ p <= p' /\ p' mod 2 = 1
  /\ StronglySorted Z.lt candidates
  /\ forall r, In r candidates <->
       p <= r < p' /\ r mod 2 = 1 /\ ~ In r known /\ Z.prime r.
Proof.
  intros Hp Hg.
  destruct (Generator.gen_batch_sound known _ _ _ _ _ _ Hp Hg)
    as (cs & E & Hb). simpl in E. subst cs.
  destruct (Generator.batch_spec known _ _ _ _ Hb Hp)
    as (H1 & H2 & H3 & H4 & H5 & _).
  split; [assumption|]. split; [assumption|]. split; [assumption|].
  split; [assumption|]. intros r. rewrite H4.
  rewrite Generator.is_candidate_spec, TrialDivision.is_prime_spec. tauto.
Qed.

Lemma batch_is_contiguous_witness :
  129 mod 2 = 1 /\
  MERSENNE.gen_batch 5 MERSENNE.known_exponents 2 [] 129
    = Done ([131; 137], 139) /\
  (length [131; 137] = 2%nat
   /\ 129 <= 139 /\ 139 mod 2 = 1
   /\ StronglySorted Z.lt [131; 137]
   /\ forall r, In r [131; 137] <->
        129 <= r < 139 /\ r mod 2 = 1 /\ ~ In r MERSENNE.known_exponents
        /\ Z.prime r).
Proof.
  assert (H1 : 129 mod 2 = 1) by reflexivity.
  assert (H2 : MERSENNE.gen_batch 5 MERSENNE.known_exponents 2 [] 129
               = Done ([131; 137], 139)) by (vm_compute; reflexivity).
  exact (conj H1 (conj H2
    (batch_is_contiguous 5 2 MERSENNE.known_exponents 129 139 [131; 137]
       H1 H2))).
Defined.

(** * Further properties of Mersenne_GPU.py *)

Module ChunksMore.
Import Mersenne_GPU Chunks.

(** A limb list without a leading zero limb (the last element of the
    little-endian list). *)
Definition canonical (chunks : list Z) : Prop := last chunks 1 <> 0.

Lemma value_nonneg (chunks : list Z) (cs : Z) :
  Forall (fun c => 0 <= c <= 2 ^ cs - 1) chunks -> 0 <= value chunks cs.
Proof.
  induction 1 as [|c chunks Hc _ IH]; [simpl; lia|].
  cbn [value]. assert (0 <= 2 ^ cs) by (apply Z.pow_nonneg; lia).
  nia.
Qed.

Lemma value_pos (chunks : list Z) (cs : Z) :
  0 <= cs -> Forall (fun c => 0 <= c <= 2 ^ cs - 1) chunks ->
  chunks <> [] -> canonical chunks -> 0 < value chunks cs.
Proof.
  intros Hcs Hall. unfold canonical.
  induction Hall as [|c chunks Hc Hall IH]; intros Hne Hlast; [congruence|].
  cbn [value]. assert (Hpow : 0 < 2 ^ cs) by (apply Z.pow_pos_nonneg; lia).
  destruct chunks as [|d chunks].
  - simpl in *. lia.
  - assert (0 < value (d :: chunks) cs) by (apply IH; [discriminate|exact Hlast]).
    nia.
Qed.

Lemma split_loop_value (chunks : list Z) (cs : Z) : forall acc fuel,
  1 <= cs -> Forall (fun c => 0 <= c <= 2 ^ cs - 1) chunks ->
  canonical chunks -> (length chunks < fuel)%nat ->
  split_loop fuel acc (value chunks cs) cs = Done (acc ++ chunks).
Proof.
  induction chunks as [|c chunks IH]; intros acc fuel Hcs Hall Hcan Hf.
  - destruct fuel; [lia|]. simpl. now rewrite app_nil_r.
  - destruct fuel as [|fuel]; [simpl in Hf; lia|].
    inversion Hall as [|? ? Hc Hall']; subst.
    assert (Hpow : 0 < 2 ^ cs) by (apply Z.pow_pos_nonneg; lia).
    assert (Hpos : 0 < value (c :: chunks) cs)
      by (apply value_pos; [lia | assumption | discriminate | assumption]).
    rewrite split_loop_step by lia. cbn [value].
    replace ((c + 2 ^ cs * value chunks cs) mod 2 ^ cs) with c.
    2:{ rewrite (Z.mul_comm (2 ^ cs)), Z_mod_plus_full, Z.mod_small; lia. }
    replace ((c + 2 ^ cs * value chunks cs) / 2 ^ cs) with (value chunks cs).
    2:{ rewrite (Z.mul_comm (2 ^ cs)), Z.div_add, Z.div_small; lia. }
    rewrite IH; try assumption.
    + now rewrite <- app_assoc.
    + destruct chunks; [unfold canonical; simpl; lia | exact Hcan].
    + simpl in Hf. lia.
Qed.


(** The limbs of [2 ^ p - 1]: full limbs, then the remaining bits. *)
Definition mersenne_chunks (p cs : Z) : list Z :=
  repeat (2 ^ cs - 1) (Z.to_nat (p / cs))
  ++ (if p mod cs =? 0 then [] else [2 ^ (p mod cs) - 1]).

Lemma value_full (cs : Z) (k : nat) (t : list Z) :
  0 <= cs ->
  value (repeat (2 ^ cs - 1) k ++ t) cs
  = 2 ^ (cs * Z.of_nat k) * (value t cs + 1) - 1.
Proof.
  intros Hcs. induction k as [|k IH].
  - cbn [repeat app]. change (Z.of_nat 0) with 0. rewrite Z.mul_0_r.
    change (2 ^ 0) with 1. lia.
  - cbn [repeat app value]. rewrite IH.
    replace (cs * Z.of_nat (S k)) with (cs + cs * Z.of_nat k) by lia.
    rewrite Z.pow_add_r by (try apply Z.mul_nonneg_nonneg; lia). ring.
Qed.

Lemma mersenne_chunks_spec (p cs : Z) :
  0 <= p -> 1 <= cs ->
  value (mersenne_chunks p cs) cs = 2 ^ p - 1
  /\ Forall (fun c => 0 <= c <= 2 ^ cs - 1) (mersenne_chunks p cs)
  /\ canonical (mersenne_chunks p cs)
  /\ Z.of_nat (length (mersenne_chunks p cs)) = (p + cs - 1) / cs.
Proof.
  intros Hp Hcs. unfold mersenne_chunks.
  pose proof (Z.div_mod p cs ltac:(lia)) as Hdm.
  pose proof (Z.mod_pos_bound p cs ltac:(lia)) as Hm.
  pose proof (Z.div_pos p cs Hp ltac:(lia)) as Hq.
  assert (Hfull : 1 <= 2 ^ cs - 1).
  { assert (1 < 2 ^ cs) by (apply Z.pow_gt_1; lia). lia. }
  rewrite value_full, Z2Nat.id by lia.
  destruct (Z.eqb_spec (p mod cs) 0) as [E|N].
  - split; [|split; [|split]].
    + cbn [value]. rewrite Z.add_0_l, Z.mul_1_r. do 2 f_equal. lia.
    + rewrite app_nil_r. apply Forall_forall. intros x Hx.
      apply repeat_spec in Hx. lia.
    + rewrite app_nil_r. unfold canonical.
      destruct (Z.to_nat (p / cs)) as [|k]; [simpl; lia|].
      replace (S k) with (k + 1)%nat by lia.
      rewrite repeat_app. simpl repeat at 2. rewrite last_last. lia.
    + rewrite app_nil_r, repeat_length, Z2Nat.id by lia.
      apply (Z.div_unique _ _ _ (cs - 1)); lia.
  - assert (Hrem : 1 <= 2 ^ (p mod cs) - 1 <= 2 ^ cs - 1).
    { assert (1 < 2 ^ (p mod cs)) by (apply Z.pow_gt_1; lia).
      assert (2 ^ (p mod cs) <= 2 ^ cs) by (apply Z.pow_le_mono_r; lia).
      lia. }
    split; [|split; [|split]].
    + cbn [value]. rewrite Z.mul_0_r, Z.add_0_r.
      replace (2 ^ (p mod cs) - 1 + 1) with (2 ^ (p mod cs)) by lia.
      rewrite <- Z.pow_add_r by (try apply Z.mul_nonneg_nonneg; lia).
      do 2 f_equal. lia.
    + apply Forall_app. split.
      * apply Forall_forall. intros x Hx. apply repeat_spec in Hx. lia.
      * constructor; [lia | constructor].
    + unfold canonical. rewrite last_last. lia.
    + rewrite length_app, repeat_length. cbn [length].
      rewrite Nat2Z.inj_add, Z2Nat.id by lia.
      apply (Z.div_unique _ _ _ (p mod cs - 1)); lia.
Qed.

End ChunksMore.

Module CudaMore.
Import Mersenne_GPU Chunks ChunksMore CudaPath.

Lemma split_mersenne (p cs : Z) (fuel : nat) :
  0 <= p -> 1 <= cs -> (p + cs - 1) / cs < Z.of_nat fuel ->
  split_chunks fuel (2 ^ p - 1) cs = Done (mersenne_chunks p cs).
Proof.
  intros Hp Hcs Hf.
  destruct (mersenne_chunks_spec p cs Hp Hcs) as (Hv & Hall & Hcan & Hlen).
  unfold split_chunks. rewrite <- Hv.
  rewrite split_loop_value; try assumption; [reflexivity | lia].
Qed.

Lemma split_mersenne_inv (p cs : Z) (fuel : nat) (chunks : list Z) :
  0 <= p -> 1 <= cs -> split_chunks fuel (2 ^ p - 1) cs = Done chunks ->
  chunks = mersenne_chunks p cs.
Proof.
  intros Hp Hcs Hs.
  set (big := Nat.max fuel (S (Z.to_nat ((p + cs - 1) / cs)))).
  assert (H1 : split_chunks big (2 ^ p - 1) cs = Done chunks).
  { unfold split_chunks in *.
    apply (split_loop_mono fuel); [unfold big; lia | assumption]. }
  rewrite split_mersenne in H1; try assumption; [congruence|].
  unfold big. lia.
Qed.

Lemma wrap64_mersenne (p : Z) :
  0 <= p -> wrap64 (2 ^ p - 1) = if p <=? 63 then 2 ^ p - 1 else -1.
Proof.
  intros Hp. destruct (Z.leb_spec p 63) as [Hle|Hgt].
  - apply wrap64_small.
    assert (2 ^ p <= 2 ^ 63) by (apply Z.pow_le_mono_r; lia).
    assert (0 < 2 ^ p) by (apply Z.pow_pos_nonneg; lia). lia.
  - unfold wrap64.
    replace (2 ^ p - 1 + 2 ^ 63) with (2 ^ 63 - 1 + 2 ^ (p - 64) * 2 ^ 64).
    + rewrite Z_mod_plus_full. reflexivity.
    + replace p with (p - 64 + 64) at 2 by lia.
      rewrite Z.pow_add_r by lia. lia.
Qed.

Lemma kernel_body_minus_one (s : Z) : kernel_body (-1) s = 0.
Proof.
  unfold kernel_body.
  pose proof (Z.mod_neg_bound (sub64 (mul64 s s) 2) (-1) ltac:(lia)). lia.
Qed.

Lemma for_range_minus_one (n : nat) : forall s,
  (1 <= n)%nat -> for_range n (kernel_body (-1)) s = 0.
Proof.
  induction n as [|n IH]; intros s Hn; [lia|].
  cbn [for_range]. rewrite kernel_body_minus_one.
  destruct n as [|n]; [reflexivity|]. apply IH. lia.
Qed.

Lemma mersenne_chunks_length_30 (p : Z) :
  0 <= p < 2 ^ 58 -> Z.of_nat (length (mersenne_chunks p 30)) < 2 ^ 58.
Proof.
  intros Hp.
  destruct (mersenne_chunks_spec p 30 ltac:(lia) ltac:(lia))
    as (_ & _ & _ & ->).
  apply Z.div_lt_upper_bound; lia.
Qed.

Lemma lucas_lehmer_test_cuda_from_64 (p : Z) (fuel : nat) :
  64 <= p < 2 ^ 58 -> (p + 29) / 30 < Z.of_nat fuel ->
  lucas_lehmer_test_cuda fuel p = Done true.
Proof.
  intros Hp Hf. unfold lucas_lehmer_test_cuda.
  destruct (Z.eqb_spec p 2); [lia|].
  rewrite mersenne_nonneg by lia. cbn [bind].
  replace (p + 29) with (p + 30 - 1) in Hf by lia.
  rewrite split_mersenne by (assumption || lia). cbn [bind].
  destruct (mersenne_chunks_spec p 30 ltac:(lia) ltac:(lia))
    as (Hv & _ & _ & Hlen).
  replace (p + 30 - 1) with (p + 29) in Hlen by lia.
  assert (1 <= (p + 29) / 30) by (apply Z.div_le_lower_bound; lia).
  destruct (Z.eqb_spec
              ((Z.of_nat (length (mersenne_chunks p 30)) + 32 - 1)
                 / 32) 0) as [E|_].
  { exfalso.
    assert (1 <= (Z.of_nat (length (mersenne_chunks p 30))
                  + 32 - 1) / 32)
      by (apply Z.div_le_lower_bound; lia). lia. }
  unfold lucas_lehmer_kernel_chunked.
  rewrite kernel_modulus_value
    by (apply mersenne_chunks_length_30; lia).
  rewrite Hv, wrap64_mersenne by lia.
  destruct (Z.leb_spec p 63); [lia|].
  rewrite for_range_minus_one by lia. reflexivity.
Qed.

End CudaMore.



(** X11.  The limbs of a Mersenne number: [split_chunks(2^p - 1,
    chunk_size)] is [p / chunk_size] limbs equal to [2^chunk_size - 1]
    followed, when [chunk_size] does not divide [p], by one limb
    [2^(p mod chunk_size) - 1]; the loop takes one turn per limb, that is
    the ceiling of [p / chunk_size] turns. *)
Theorem mersenne_number_limbs (p chunk_size : Z) (fuel : nat) :
  0 <= p -> 1 <= chunk_size ->
  (p + chunk_size - 1) / chunk_size < Z.of_nat fuel ->
  Mersenne_GPU.split_chunks fuel (2 ^ p - 1) chunk_size
  = Done (repeat (2 ^ chunk_size - 1) (Z.to_nat (p / chunk_size))
          ++ (if p mod chunk_size =? 0 then []
              else [2 ^ (p mod chunk_size) - 1]))
  /\ Z.of_nat (length
       (repeat (2 ^ chunk_size - 1) (Z.to_nat (p / chunk_size))
        ++ (if p mod chunk_size =? 0 then []
            else [2 ^ (p mod chunk_size) - 1])))
     = (p + chunk_size - 1) / chunk_size.
Proof.
  intros Hp Hcs Hf. split.
  - now apply CudaMore.split_mersenne.
  - now destruct (ChunksMore.mersenne_chunks_spec p chunk_size Hp Hcs)
      as (_ & _ & _ & H).
Qed.

Lemma mersenne_number_limbs_witness :
  0 <= 2203 /\ 1 <= 30 /\ (2203 + 30 - 1) / 30 < Z.of_nat 75 /\
  (Mersenne_GPU.split_chunks 75 (2 ^ 2203 - 1) 30
   = Done (repeat (2 ^ 30 - 1) (Z.to_nat (2203 / 30))
           ++ (if 2203 mod 30 =? 0 then [] else [2 ^ (2203 mod 30) - 1]))
   /\ Z.of_nat (length
        (repeat (2 ^ 30 - 1) (Z.to_nat (2203 / 30))
         ++ (if 2203 mod 30 =? 0 then [] else [2 ^ (2203 mod 30) - 1])))
      = (2203 + 30 - 1) / 30).
Proof.
  assert (H1 : 0 <= 2203) by lia.
  assert (H2 : 1 <= 30) by lia.
  assert (H3 : (2203 + 30 - 1) / 30 < Z.of_nat 75) by (vm_compute; reflexivity).
  exact (conj H1 (conj H2 (conj H3 (mersenne_number_limbs 2203 30 75 H1 H2 H3)))).
Defined.

(** X12.  The modulus the kernel rebuilds from the limbs of [2^p - 1] is
    that number reduced to [int64]: it is [2^p - 1] itself up to
    [p = 63] and it is [-1] from [p = 64] on. *)
Theorem kernel_modulus_of_mersenne (p : Z) (fuel : nat) (chunks : list Z) :
  0 <= p < 2 ^ 58 ->
  Mersenne_GPU.split_chunks fuel (2 ^ p - 1) 30 = Done chunks ->
  Mersenne_GPU.kernel_modulus chunks 30
  = if p <=? 63 then 2 ^ p - 1 else -1.
Proof.
  intros Hp Hs.
  apply CudaMore.split_mersenne_inv in Hs; [|lia..]. subst chunks.
  rewrite CudaPath.kernel_modulus_value
    by (now apply CudaMore.mersenne_chunks_length_30).
  destruct (ChunksMore.mersenne_chunks_spec p 30 ltac:(lia) ltac:(lia))
    as (-> & _).
  apply CudaMore.wrap64_mersenne. lia.
Qed.

Lemma kernel_modulus_of_mersenne_witness :
  0 <= 89 < 2 ^ 58 /\
  Mersenne_GPU.split_chunks 4 (2 ^ 89 - 1) 30
    = Done [1073741823; 1073741823; 536870911] /\
  Mersenne_GPU.kernel_modulus [1073741823; 1073741823; 536870911] 30
  = if 89 <=? 63 then 2 ^ 89 - 1 else -1.
Proof.
  assert (H1 : 0 <= 89 < 2 ^ 58) by lia.
  assert (H2 : Mersenne_GPU.split_chunks 4 (2 ^ 89 - 1) 30
               = Done [1073741823; 1073741823; 536870911])
    by (vm_compute; reflexivity).
  exact (conj H1 (conj H2
    (kernel_modulus_of_mersenne 89 4 [1073741823; 1073741823; 536870911]
       H1 H2))).
Defined.

(** X13.  From [p = 64] on the chunked test answers true for every
    exponent, prime or not: the rebuilt modulus is [-1], so every residue
    is 0.  One turn of the splitting loop per limb is enough fuel. *)
Theorem chunked_test_accepts_from_64 (p : Z) (fuel : nat) :
  64 <= p < 2 ^ 58 -> (p + 29) / 30 < Z.of_nat fuel ->
  Mersenne_GPU.lucas_lehmer_test_cuda fuel p = Done true.
Proof. apply CudaMore.lucas_lehmer_test_cuda_from_64. Qed.

Lemma chunked_test_accepts_from_64_witness :
  64 <= 2209 < 2 ^ 58 /\ (2209 + 29) / 30 < Z.of_nat 75 /\
  Mersenne_GPU.lucas_lehmer_test_cuda 75 2209 = Done true.
Proof.
  assert (H1 : 64 <= 2209 < 2 ^ 58) by lia.
  assert (H2 : (2209 + 29) / 30 < Z.of_nat 75) by (vm_compute; reflexivity).
  exact (conj H1 (conj H2 (chunked_test_accepts_from_64 2209 75 H1 H2))).
Defined.

Module GpuSearchMore.
Import Mersenne_GPU.

(** The two filters of the loop, as one test. *)
Definition submitted (known : list Z) (c : Z) : bool :=
  negb (py_in c known) && negb (not_1_or_5_mod_6 c).

Lemma submitted_spec (known : list Z) (c : Z) :
  submitted known c = true
  <-> (c mod 6 = 1 \/ c mod 6 = 5) /\ ~ In c known.
Proof.
  unfold submitted, not_1_or_5_mod_6.
  rewrite andb_true_iff, !negb_true_iff, negb_false_iff, orb_true_iff.
  rewrite !Z.eqb_eq, <- py_in_spec.
  destruct (py_in c known); intuition congruence.
Qed.

Lemma lucas_lehmer_test_cuda_domain (fuel : nat) (p : Z) (b : bool) :
  lucas_lehmer_test_cuda fuel p = Done b -> 0 <= p.
Proof.
  unfold lucas_lehmer_test_cuda, mersenne, py_shl.
  destruct (Z.eqb_spec p 2); [lia|].
  destruct (Z.ltb_spec p 0); [discriminate | lia].
Qed.

Lemma lucas_lehmer_test_cuda_negative (fuel : nat) (p : Z) :
  p < 0 -> lucas_lehmer_test_cuda fuel p = Raise ValueError.
Proof.
  intros Hp. unfold lucas_lehmer_test_cuda, mersenne, py_shl.
  destruct (Z.eqb_spec p 2); [lia|].
  destruct (Z.ltb_spec p 0); [reflexivity | lia].
Qed.

(** The loop walks to the first exponent that passes both filters. *)
Lemma find_loop_skip (n : nat) : forall start q known f,
  q = start + 1 + Z.of_nat n ->
  (forall c, start < c < q -> submitted known c = false) ->
  submitted known q = true ->
  find_loop (S n + f) known start
  = match lucas_lehmer_test_cuda f q with
    | Done true => ([q], mersenne_prime <- mersenne q ;; Done (mersenne_prime, q))
    | Done false =>
        let (more, r) := find_loop f known q in (q :: more, r)
    | Raise e => ([q], Raise e)
    | OutOfFuel => ([q], OutOfFuel)
    end.
Proof.
  induction n as [|n IH]; intros start q known f Hq Hskip Hsub.
  - replace q with (start + 1) in * by lia.
    change (1 + f)%nat with (S f). cbn [find_loop].
    unfold submitted in Hsub. apply andb_true_iff in Hsub.
    destruct Hsub as [H1 H2]. apply negb_true_iff in H1, H2.
    now rewrite H1, H2.
  - change (S (S n) + f)%nat with (S (S n + f)). cbn [find_loop].
    assert (Hno : submitted known (start + 1) = false)
      by (apply Hskip; lia).
    assert (Hrec : find_loop (S n + f) known (start + 1)
                   = match lucas_lehmer_test_cuda f q with
                     | Done true =>
                         ([q], mersenne_prime <- mersenne q ;;
                               Done (mersenne_prime, q))
                     | Done false =>
                         let (more, r) := find_loop f known q in
                         (q :: more, r)
                     | Raise e => ([q], Raise e)
                     | OutOfFuel => ([q], OutOfFuel)
                     end).
    { apply IH; [lia | | assumption]. intros c Hc. apply Hskip. lia. }
    unfold submitted in Hno. apply andb_false_iff in Hno.
    destruct (py_in (start + 1) known); [exact Hrec|].
    destruct (not_1_or_5_mod_6 (start + 1)); [exact Hrec|].
    destruct Hno; discriminate.
Qed.

Lemma gpu_find_loop_sound (fuel : nat) : forall known start v q,
  snd (find_loop fuel known start) = Done (v, q) ->
  v = 2 ^ q - 1 /\ start < q /\ submitted known q = true
  /\ (exists f, lucas_lehmer_test_cuda f q = Done true)
  /\ forall c, start < c < q -> submitted known c = true ->
               exists f, lucas_lehmer_test_cuda f c = Done false.
Proof.
  induction fuel as [|fuel IH]; intros known start v q; [discriminate|].
  cbn [find_loop].
  assert (Hcont : submitted known (start + 1) = false ->
            snd (find_loop fuel known (start + 1)) = Done (v, q) ->
            v = 2 ^ q - 1 /\ start < q /\ submitted known q = true
            /\ (exists f, lucas_lehmer_test_cuda f q = Done true)
            /\ forall c, start < c < q -> submitted known c = true ->
                         exists f, lucas_lehmer_test_cuda f c = Done false).
  { intros Hno H. apply IH in H. destruct H as (H1 & H2 & H3 & H4 & H5).
    split; [assumption|]. split; [lia|]. split; [assumption|].
    split; [assumption|].
    intros c Hc Hsub. destruct (Z.eq_dec c (start + 1)) as [->|N].
    - congruence.
    - apply H5; [lia | assumption]. }
  unfold submitted in Hcont at 1.
  destruct (py_in (start + 1) known) eqn:Ein; [now apply Hcont|].
  destruct (not_1_or_5_mod_6 (start + 1)) eqn:E6; [now apply Hcont|].
  clear Hcont.
  assert (Hsub : submitted known (start + 1) = true)
    by (unfold submitted; now rewrite Ein, E6).
  destruct (lucas_lehmer_test_cuda fuel (start + 1)) as [[|]| |] eqn:Et;
    try discriminate.
  - pose proof (lucas_lehmer_test_cuda_domain _ _ _ Et) as Hnn.
    cbn [snd]. rewrite mersenne_nonneg by assumption. cbn [bind].
    intros [= <- <-]. split; [reflexivity|]. split; [lia|].
    split; [assumption|]. split; [eauto|]. intros c Hc. lia.
  - destruct (find_loop fuel known (start + 1)) as [more r] eqn:Er.
    cbn [snd]. intros H.
    assert (Hr : snd (find_loop fuel known (start + 1)) = Done (v, q))
      by (now rewrite Er).
    apply IH in Hr. destruct Hr as (H1 & H2 & H3 & H4 & H5).
    split; [assumption|]. split; [lia|]. split; [assumption|].
    split; [assumption|].
    intros c Hc Hsubc. destruct (Z.eq_dec c (start + 1)) as [->|N].
    + eauto.
    + apply H5; [lia | assumption].
Qed.

End GpuSearchMore.

(** X14.  When the search of Mersenne_GPU.py returns [(v, q)], then
    [v = 2^q - 1] and [q] is the least exponent above [start] that is
    outside the known list, congruent to 1 or 5 modulo 6 and accepted by
    the chunked test: every smaller such exponent was rejected by it. *)
Theorem gpu_search_returns_least (fuel : nat) (start : Z) (known : list Z)
    (v q : Z) :
  snd (Mersenne_GPU.find_next_mersenne_prime fuel start known) = Done (v, q) ->
  v = 2 ^ q - 1 /\ start < q
  /\ (q mod 6 = 1 \/ q mod 6 = 5) /\ ~ In q known
  /\ (exists f, Mersenne_GPU.lucas_lehmer_test_cuda f q = Done true)
  /\ forall c, start < c < q -> (c mod 6 = 1 \/ c mod 6 = 5) ->
               ~ In c known ->
               exists f, Mersenne_GPU.lucas_lehmer_test_cuda f c = Done false.
Proof.
  intros H. apply GpuSearchMore.gpu_find_loop_sound in H.
  destruct H as (H1 & H2 & H3 & H4 & H5).
  apply GpuSearchMore.submitted_spec in H3. destruct H3 as [H3 H3'].
  split; [assumption|]. split; [assumption|]. split; [assumption|].
  split; [assumption|]. split; [assumption|].
  intros c Hc H6 Hk. apply H5; [assumption|].
  apply GpuSearchMore.submitted_spec. now split.
Qed.

Lemma gpu_search_returns_least_witness :
  snd (Mersenne_GPU.find_next_mersenne_prime 16 19 []) = Done (2147483647, 31)
  /\ (2147483647 = 2 ^ 31 - 1 /\ 19 < 31
      /\ (31 mod 6 = 1 \/ 31 mod 6 = 5) /\ ~ In 31 []
      /\ (exists f, Mersenne_GPU.lucas_lehmer_test_cuda f 31 = Done true)
      /\ forall c, 19 < c < 31 -> (c mod 6 = 1 \/ c mod 6 = 5) ->
                   ~ In c [] ->
                   exists f,
                     Mersenne_GPU.lucas_lehmer_test_cuda f c = Done false).
Proof.
  assert (H : snd (Mersenne_GPU.find_next_mersenne_prime 16 19 [])
              = Done (2147483647, 31)) by (vm_compute; reflexivity).
  exact (conj H (gpu_search_returns_least 16 19 [] 2147483647 31 H)).
Defined.

Module GpuSearchReach.
Import Mersenne_GPU GpuSearchMore.

Lemma first_submitted (start q : Z) (known : list Z) :
  (q mod 6 = 1 \/ q mod 6 = 5) -> ~ In q known ->
  (forall c, start < c < q -> (c mod 6 = 1 \/ c mod 6 = 5) -> In c known) ->
  submitted known q = true
  /\ forall c, start < c < q -> submitted known c = false.
Proof.
  intros H6 Hk Hskip. split; [now apply submitted_spec|].
  intros c Hc. destruct (submitted known c) eqn:E; [|reflexivity].
  apply submitted_spec in E. destruct E as [E6 Ek].
  now specialize (Hskip c Hc E6).
Qed.

Lemma find_loop_reaches (start q : Z) (known : list Z) (fuel : nat) :
  start < q -> q - start <= Z.of_nat fuel ->
  (q mod 6 = 1 \/ q mod 6 = 5) -> ~ In q known ->
  (forall c, start < c < q -> (c mod 6 = 1 \/ c mod 6 = 5) -> In c known) ->
  find_loop fuel known start
  = match lucas_lehmer_test_cuda (fuel - Z.to_nat (q - start)) q with
    | Done true => ([q], mersenne_prime <- mersenne q ;; Done (mersenne_prime, q))
    | Done false =>
        let (more, r) :=
          find_loop (fuel - Z.to_nat (q - start)) known q in
        (q :: more, r)
    | Raise e => ([q], Raise e)
    | OutOfFuel => ([q], OutOfFuel)
    end.
Proof.
  intros Hq Hf H6 Hk Hskip.
  destruct (first_submitted start q known H6 Hk Hskip) as [Hsub Hno].
  replace fuel
    with (S (Z.to_nat (q - start - 1)) + (fuel - Z.to_nat (q - start)))%nat
    at 1 by lia.
  apply find_loop_skip; [lia | assumption | assumption].
Qed.

End GpuSearchReach.

(** X15.  Started at 63 or above, the search of Mersenne_GPU.py returns
    the first exponent above [start] that is outside the known list and
    congruent to 1 or 5 modulo 6, whether or not it is prime: it is the
    only exponent passed to the test, which accepts it. *)
Theorem gpu_search_from_63 (start q : Z) (known : list Z) (fuel : nat) :
  63 <= start -> start < q < 2 ^ 58 ->
  (q mod 6 = 1 \/ q mod 6 = 5) -> ~ In q known ->
  (forall c, start < c < q -> (c mod 6 = 1 \/ c mod 6 = 5) -> In c known) ->
  q - start + (q + 29) / 30 < Z.of_nat fuel ->
  Mersenne_GPU.find_next_mersenne_prime fuel start known
  = ([q], Done (2 ^ q - 1, q)).
Proof.
  intros Hs Hq H6 Hk Hskip Hf.
  assert (0 <= (q + 29) / 30) by (apply Z.div_pos; lia).
  unfold Mersenne_GPU.find_next_mersenne_prime.
  rewrite (GpuSearchReach.find_loop_reaches start q known fuel)
    by (assumption || lia).
  rewrite CudaMore.lucas_lehmer_test_cuda_from_64 by lia.
  now rewrite mersenne_nonneg by lia.
Qed.

Lemma gpu_search_from_63_witness :
  63 <= 2203 /\ 2203 < 2209 < 2 ^ 58 /\
  (2209 mod 6 = 1 \/ 2209 mod 6 = 5) /\
  ~ In 2209 (2207 :: Mersenne_GPU.known_exponents) /\
  (forall c, 2203 < c < 2209 -> (c mod 6 = 1 \/ c mod 6 = 5) ->
             In c (2207 :: Mersenne_GPU.known_exponents)) /\
  2209 - 2203 + (2209 + 29) / 30 < Z.of_nat 100 /\
  Mersenne_GPU.find_next_mersenne_prime 100 2203
    (2207 :: Mersenne_GPU.known_exponents)
  = ([2209], Done (2 ^ 2209 - 1, 2209)).
Proof.
  assert (H1 : 63 <= 2203) by lia.
  assert (H2 : 2203 < 2209 < 2 ^ 58) by lia.
  assert (H3 : 2209 mod 6 = 1 \/ 2209 mod 6 = 5) by (left; reflexivity).
  assert (H4 : ~ In 2209 (2207 :: Mersenne_GPU.known_exponents)).
  { unfold Mersenne_GPU.known_exponents. simpl. lia. }
  assert (H5 : forall c, 2203 < c < 2209 -> (c mod 6 = 1 \/ c mod 6 = 5) ->
                         In c (2207 :: Mersenne_GPU.known_exponents)).
  { intros c Hc H6. left. Z.div_mod_to_equations. lia. }
  assert (H6 : 2209 - 2203 + (2209 + 29) / 30 < Z.of_nat 100)
    by (vm_compute; reflexivity).
  exact (conj H1 (conj H2 (conj H3 (conj H4 (conj H5 (conj H6
    (gpu_search_from_63 2203 2209 (2207 :: Mersenne_GPU.known_exponents)
       100 H1 H2 H3 H4 H5 H6))))))).
Defined.

(** X16.  When the first exponent above [start] that passes the two
    filters is negative (Python's [%] maps negative numbers to 1 and 5
    as well), the search of Mersenne_GPU.py raises [ValueError] from the
    shift [1 << p]. *)
Theorem gpu_search_raises_below_zero (start q : Z) (known : list Z)
    (fuel : nat) :
  start < q < 0 ->
  (q mod 6 = 1 \/ q mod 6 = 5) -> ~ In q known ->
  (forall c, start < c < q -> (c mod 6 = 1 \/ c mod 6 = 5) -> In c known) ->
  q - start <= Z.of_nat fuel ->
  Mersenne_GPU.find_next_mersenne_prime fuel start known
  = ([q], Raise ValueError).
Proof.
  intros Hq H6 Hk Hskip Hf.
  unfold Mersenne_GPU.find_next_mersenne_prime.
  rewrite (GpuSearchReach.find_loop_reaches start q known fuel)
    by (assumption || lia).
  now rewrite GpuSearchMore.lucas_lehmer_test_cuda_negative by lia.
Qed.

Lemma gpu_search_raises_below_zero_witness :
  -7 < -5 < 0 /\
  (-5 mod 6 = 1 \/ -5 mod 6 = 5) /\
  ~ In (-5) Mersenne_GPU.known_exponents /\
  (forall c, -7 < c < -5 -> (c mod 6 = 1 \/ c mod 6 = 5) ->
             In c Mersenne_GPU.known_exponents) /\
  -5 - -7 <= Z.of_nat 2 /\
  Mersenne_GPU.find_next_mersenne_prime 2 (-7) Mersenne_GPU.known_exponents
  = ([-5], Raise ValueError).
Proof.
  assert (H1 : -7 < -5 < 0) by lia.
  assert (H2 : -5 mod 6 = 1 \/ -5 mod 6 = 5) by (left; reflexivity).
  assert (H3 : ~ In (-5) Mersenne_GPU.known_exponents).
  { unfold Mersenne_GPU.known_exponents. simpl. lia. }
  assert (H4 : forall c, -7 < c < -5 -> (c mod 6 = 1 \/ c mod 6 = 5) ->
                         In c Mersenne_GPU.known_exponents).
  { intros c Hc H6. exfalso. Z.div_mod_to_equations. lia. }
  assert (H5 : -5 - -7 <= Z.of_nat 2) by (simpl; lia).
  exact (conj H1 (conj H2 (conj H3 (conj H4 (conj H5
    (gpu_search_raises_below_zero (-7) (-5) Mersenne_GPU.known_exponents 2
       H1 H2 H3 H4 H5)))))).
Defined.

(** * The driver loops *)

Module DriverMore.
Import MERSENNE.

Lemma sorted_snoc (known : list Z) (start p : Z) :
  StronglySorted Z.lt known -> Forall (fun x => x <= start) known ->
  start < p ->
  StronglySorted Z.lt (known ++ [p])
  /\ Forall (fun x => x <= p) (known ++ [p]).
Proof.
  intros Hs Hb Hp. split.
  - apply Scheduler.StronglySorted_app; [assumption | repeat constructor|].
    intros x y Hx [<-|[]]. rewrite Forall_forall in Hb.
    specialize (Hb x Hx). lia.
  - apply Forall_app. split.
    + eapply Forall_impl; [|exact Hb]. cbv beta. intros x Hx. lia.
    + repeat constructor. lia.
Qed.

Lemma last_cons (found : list Z) (p start : Z) :
  last (p :: found) start = last found p.
Proof.
  revert p start.
  induction found as [|a found IH]; intros p start; [reflexivity|].
  change (last (p :: a :: found) start) with (last (a :: found) start).
  now rewrite !IH.
Qed.

Section Main.
Variable has_gmpy2 : bool.
Variable cpu_count : Z.
Variable gmpy2_is_prime : Z -> bool.
Variable sched : nat -> list nat.
Hypothesis Hcpu : 1 <= cpu_count.
Hypothesis Hsched :
  forall k, Permutation (sched k) (seq 0 (Z.to_nat (cpu_count * 2))).

Lemma main_iteration_inv (fuel : nat) (known : list Z) (start : Z)
    (known' : list Z) (start' : Z) (verified : bool) :
  main_iteration has_gmpy2 cpu_count gmpy2_is_prime fuel sched known start
    = Done (known', start', verified) ->
  known' = known ++ [start'] /\ start < start' /\ ~ In start' known
  /\ Z.prime start'
  /\ lucas_lehmer_test has_gmpy2 start' = Done true
  /\ verify_mersenne_prime has_gmpy2 gmpy2_is_prime start' = Done verified.
Proof.
  unfold main_iteration. intros H.
  apply bind_Done in H. destruct H as ([v q] & Hfind & H).
  cbn [snd] in H. apply bind_Done in H. destruct H as (b & Hver & H).
  injection H as <- <- <-.
  rewrite find_next_unfold in Hfind.
  destruct (Scheduler.find_loop_sound has_gmpy2 known _ _ sched Hcpu Hsched
              _ _ _ _ (Scheduler.first_odd_above start) Hfind)
    as (q' & [= -> ->] & Hhit).
  destruct Hhit as (H1 & H2 & H3 & H4 & _).
  apply Generator.is_candidate_spec in H3. destruct H3 as [Hk Hp].
  pose proof (TrialDivision.is_prime_ge_2 _ Hp) as Hge.
  pose proof (SearchMore.start_below start) as Hlt.
  split; [reflexivity|]. split; [lia|]. split; [assumption|].
  split; [now apply TrialDivision.is_prime_spec|]. split; [|assumption].
  rewrite LucasLehmer.lucas_lehmer_test_nonneg by lia. now f_equal.
Qed.

Lemma main_iterations_inv (n : nat) : forall fuel known start known' start',
  StronglySorted Z.lt known -> Forall (fun x => x <= start) known ->
  main_iterations has_gmpy2 cpu_count gmpy2_is_prime n fuel sched known start
    = Done (known', start') ->
  exists found,
    known' = known ++ found /\ length found = n
    /\ start' = last found start
    /\ StronglySorted Z.lt known'
    /\ Forall (fun x => x <= start') known'
    /\ Forall (fun q => start < q /\ Z.prime q
                        /\ lucas_lehmer_test has_gmpy2 q = Done true) found.
Proof.
  induction n as [|n IH]; intros fuel known start known' start' Hs Hb.
  - cbn [main_iterations]. intros [= <- <-]. exists [].
    rewrite app_nil_r. repeat split; try assumption. constructor.
  - cbn [main_iterations]. intros H.
    apply bind_Done in H. destruct H as ([[k1 s1] v] & Hit & H).
    cbn [fst snd] in H.
    destruct (main_iteration_inv _ _ _ _ _ _ Hit)
      as (-> & Hlt & Hk & Hp & Ht & _).
    destruct (sorted_snoc known start s1 Hs Hb Hlt) as [Hs1 Hb1].
    destruct (IH _ _ _ _ _ Hs1 Hb1 H)
      as (found & -> & Hlen & Hlast & Hs' & Hb' & Hall).
    exists (s1 :: found). rewrite <- app_assoc in Hs', Hb' |- *.
    split; [reflexivity|]. split; [simpl; lia|].
    split; [|split; [assumption|split; [assumption|]]].
    + rewrite Hlast. symmetry. apply last_cons.
    + constructor; [split; [assumption | split; assumption]|].
      eapply Forall_impl; [|exact Hall]. cbv beta.
      intros q (Hq & Hqp & Hqt).
      split; [lia | split; assumption].
Qed.

End Main.

Section GpuLoop.
Import Mersenne_GPU.
Variable gmpy2_is_prime : Z -> bool.

Lemma search_iteration_inv (fuel : nat) (known : list Z) (start : Z)
    (known' : list Z) (start' : Z) (verified : bool) :
  search_iteration gmpy2_is_prime fuel known start
    = Done (known', start', verified) ->
  known' = known ++ [start'] /\ start < start' /\ ~ In start' known
  /\ (start' mod 6 = 1 \/ start' mod 6 = 5)
  /\ verified = gmpy2_is_prime (2 ^ start' - 1).
Proof.
  unfold search_iteration. intros H.
  apply bind_Done in H. destruct H as ([v q] & Hfind & H).
  cbn [snd] in H. apply bind_Done in H. destruct H as (b & Hver & H).
  injection H as <- <- <-.
  apply GpuSearchMore.gpu_find_loop_sound in Hfind.
  destruct Hfind as (_ & Hlt & Hsub & [f Hf] & _).
  apply GpuSearchMore.submitted_spec in Hsub. destruct Hsub as [H6 Hk].
  pose proof (GpuSearchMore.lucas_lehmer_test_cuda_domain _ _ _ Hf) as Hnn.
  unfold Mersenne_GPU.verify_mersenne_prime in Hver.
  rewrite mersenne_nonneg in Hver by assumption. injection Hver as <-.
  now repeat split.
Qed.

Lemma search_iterations_inv (n : nat) : forall fuel known start known' start',
  StronglySorted Z.lt known -> Forall (fun x => x <= start) known ->
  search_iterations gmpy2_is_prime n fuel known start
    = Done (known', start') ->
  exists found,
    known' = known ++ found /\ length found = n
    /\ start' = last found start
    /\ StronglySorted Z.lt known'
    /\ Forall (fun x => x <= start') known'.
Proof.
  induction n as [|n IH]; intros fuel known start known' start' Hs Hb.
  - cbn [search_iterations]. intros [= <- <-]. exists [].
    rewrite app_nil_r. now repeat split.
  - cbn [search_iterations]. intros H.
    apply bind_Done in H. destruct H as ([[k1 s1] v] & Hit & H).
    cbn [fst snd] in H.
    destruct (search_iteration_inv _ _ _ _ _ _ Hit) as (-> & Hlt & _).
    destruct (sorted_snoc known start s1 Hs Hb Hlt) as [Hs1 Hb1].
    destruct (IH _ _ _ _ _ Hs1 Hb1 H)
      as (found & -> & Hlen & Hlast & Hs' & Hb').
    exists (s1 :: found). rewrite <- app_assoc in Hs', Hb' |- *.
    split; [reflexivity|]. split; [simpl; lia|].
    split; [|split; assumption].
    rewrite Hlast. symmetry. apply last_cons.
Qed.

End GpuLoop.

End DriverMore.

(** X17.  The loop of [main] keeps the known list in order: started with
    a strictly increasing list whose elements are at most the starting
    exponent, [n] turns append exactly [n] exponents, each a prime
    accepted by the Lucas-Lehmer test and larger than everything before
    it; the list stays strictly increasing (so free of duplicates) and
    the starting exponent is its last element. *)
Theorem main_keeps_known_sorted (has_gmpy2 : bool) (cpu_count : Z)
    (gmpy2_is_prime : Z -> bool) (sched : nat -> list nat) (n fuel : nat)
    (known : list Z) (start : Z) (known' : list Z) (start' : Z) :
  1 <= cpu_count ->
  (forall k, Permutation (sched k) (seq 0 (Z.to_nat (cpu_count * 2)))) ->
  StronglySorted Z.lt known -> Forall (fun x => x <= start) known ->
  MERSENNE.main_iterations has_gmpy2 cpu_count gmpy2_is_prime n fuel sched
    known start = Done (known', start') ->
  exists found,
    known' = known ++ found /\ length found = n
    /\ start' = last found start
    /\ StronglySorted Z.lt known'
    /\ Forall (fun x => x <= start') known'
    /\ Forall (fun q => start < q /\ Z.prime q
                        /\ MERSENNE.lucas_lehmer_test has_gmpy2 q = Done true)
         found.
Proof.
  intros Hcpu Hsched Hs Hb H.
  exact (DriverMore.main_iterations_inv has_gmpy2 cpu_count gmpy2_is_prime
           sched Hcpu Hsched n fuel known start known' start' Hs Hb H).
Qed.

Lemma main_keeps_known_sorted_witness :
  1 <= 1 /\
  (forall k : nat, Permutation ((fun _ : nat => [1; 0]%nat) k)
                               (seq 0 (Z.to_nat (1 * 2)))) /\
  StronglySorted Z.lt [2] /\ Forall (fun x => x <= 2) [2] /\
  MERSENNE.main_iterations true 1 (fun _ : Z => true) 2 5
    (fun _ : nat => [1; 0]%nat) [2] 2 = Done ([2; 3; 5], 5) /\
  exists found,
    [2; 3; 5] = [2] ++ found /\ length found = 2%nat
    /\ 5 = last found 2
    /\ StronglySorted Z.lt [2; 3; 5]
    /\ Forall (fun x => x <= 5) [2; 3; 5]
    /\ Forall (fun q => 2 < q /\ Z.prime q
                        /\ MERSENNE.lucas_lehmer_test true q = Done true)
         found.
Proof.
  assert (H1 : 1 <= 1) by lia.
  assert (H2 : forall k : nat, Permutation ((fun _ : nat => [1; 0]%nat) k)
                                           (seq 0 (Z.to_nat (1 * 2)))).
  { intros _. apply perm_swap. }
  assert (H3 : StronglySorted Z.lt [2]) by (repeat constructor).
  assert (H4 : Forall (fun x => x <= 2) [2]) by (repeat constructor; lia).
  assert (H5 : MERSENNE.main_iterations true 1 (fun _ : Z => true) 2 5
                 (fun _ : nat => [1; 0]%nat) [2] 2 = Done ([2; 3; 5], 5))
    by (vm_compute; reflexivity).
  exact (conj H1 (conj H2 (conj H3 (conj H4 (conj H5
    (main_keeps_known_sorted true 1 (fun _ : Z => true)
       (fun _ : nat => [1; 0]%nat) 2 5 [2] 2 [2; 3; 5] 5
       H1 H2 H3 H4 H5)))))).
Defined.

(** X18.  In [main] the exponent is appended and becomes the starting
    exponent before it is verified; and when the starting exponent is at
    least 99, as with the seed list of [main], every exponent found is
    at least 100, so the verifier answers true without asking the oracle:
    the branch that reports a composite number is never taken. *)
Theorem main_never_rejects (has_gmpy2 : bool) (cpu_count : Z)
    (gmpy2_is_prime : Z -> bool) (sched : nat -> list nat) (fuel : nat)
    (known : list Z) (start : Z) (known' : list Z) (start' : Z)
    (verified : bool) :
  1 <= cpu_count ->
  (forall k, Permutation (sched k) (seq 0 (Z.to_nat (cpu_count * 2)))) ->
  MERSENNE.main_iteration has_gmpy2 cpu_count gmpy2_is_prime fuel sched
    known start = Done (known', start', verified) ->
  known' = known ++ [start'] /\ start < start' /\ ~ In start' known
  /\ (99 <= start -> verified = true).
Proof.
  intros Hcpu Hsched H.
  destruct (DriverMore.main_iteration_inv has_gmpy2 cpu_count gmpy2_is_prime
              sched Hcpu Hsched _ _ _ _ _ _ H)
    as (H1 & H2 & H3 & _ & _ & Hv).
  split; [assumption|]. split; [assumption|]. split; [assumption|].
  intros Hs. unfold MERSENNE.verify_mersenne_prime in Hv.
  rewrite mersenne_nonneg in Hv by lia. cbn [bind] in Hv.
  destruct (Z.ltb_spec start' 100); [lia|].
  rewrite andb_false_r in Hv. congruence.
Qed.

Lemma main_never_rejects_witness :
  1 <= 1 /\
  (forall k : nat, Permutation ((fun _ : nat => [1; 0]%nat) k)
                               (seq 0 (Z.to_nat (1 * 2)))) /\
  MERSENNE.main_iteration true 1 (fun _ : Z => false) 8
    (fun _ : nat => [1; 0]%nat) [89] 99 = Done ([89; 107], 107, true) /\
  ([89; 107] = [89] ++ [107] /\ 99 < 107 /\ ~ In 107 [89]
   /\ (99 <= 99 -> true = true)).
Proof.
  assert (H1 : 1 <= 1) by lia.
  assert (H2 : forall k : nat, Permutation ((fun _ : nat => [1; 0]%nat) k)
                                           (seq 0 (Z.to_nat (1 * 2)))).
  { intros _. apply perm_swap. }
  assert (H3 : MERSENNE.main_iteration true 1 (fun _ : Z => false) 8
                 (fun _ : nat => [1; 0]%nat) [89] 99
               = Done ([89; 107], 107, true)) by (vm_compute; reflexivity).
  exact (conj H1 (conj H2 (conj H3
    (main_never_rejects true 1 (fun _ : Z => false)
       (fun _ : nat => [1; 0]%nat) 8 [89] 99 [89; 107] 107 true
       H1 H2 H3)))).
Defined.

(** X19.  The module-level loop of Mersenne_GPU.py keeps the known list
    in order in the same way: [n] turns append [n] exponents, the list
    stays strictly increasing and the starting exponent is its last
    element. *)
Theorem gpu_loop_keeps_known_sorted (gmpy2_is_prime : Z -> bool)
    (n fuel : nat) (known : list Z) (start : Z) (known' : list Z)
    (start' : Z) :
  StronglySorted Z.lt known -> Forall (fun x => x <= start) known ->
  Mersenne_GPU.search_iterations gmpy2_is_prime n fuel known start
    = Done (known', start') ->
  exists found,
    known' = known ++ found /\ length found = n
    /\ start' = last found start
    /\ StronglySorted Z.lt known'
    /\ Forall (fun x => x <= start') known'.
Proof.
  intros Hs Hb H.
  exact (DriverMore.search_iterations_inv gmpy2_is_prime n fuel known start
           known' start' Hs Hb H).
Qed.

Lemma gpu_loop_keeps_known_sorted_witness :
  StronglySorted Z.lt [19] /\ Forall (fun x => x <= 19) [19] /\
  Mersenne_GPU.search_iterations (fun _ : Z => true) 1 16 [19] 19
    = Done ([19; 31], 31) /\
  exists found,
    [19; 31] = [19] ++ found /\ length found = 1%nat
    /\ 31 = last found 19
    /\ StronglySorted Z.lt [19; 31]
    /\ Forall (fun x => x <= 31) [19; 31].
Proof.
  assert (H1 : StronglySorted Z.lt [19]) by (repeat constructor).
  assert (H2 : Forall (fun x => x <= 19) [19]) by (repeat constructor; lia).
  assert (H3 : Mersenne_GPU.search_iterations (fun _ : Z => true) 1 16
                 [19] 19 = Done ([19; 31], 31)) by (vm_compute; reflexivity).
  exact (conj H1 (conj H2 (conj H3
    (gpu_loop_keeps_known_sorted (fun _ : Z => true) 1 16 [19] 19
       [19; 31] 31 H1 H2 H3)))).
Defined.

(** X20.  In the loop of Mersenne_GPU.py the exponent is appended to the
    known list and becomes the starting exponent before it is verified:
    the new state is the same whatever the oracle answers, so an exponent
    the oracle rejects stays in the list and is never tested again. *)
Theorem gpu_loop_keeps_rejected (gmpy2_is_prime : Z -> bool) (fuel : nat)
    (known : list Z) (start : Z) (known' : list Z) (start' : Z)
    (verified : bool) :
  Mersenne_GPU.search_iteration gmpy2_is_prime fuel known start
    = Done (known', start', verified) ->
  known' = known ++ [start'] /\ start < start' /\ ~ In start' known
  /\ verified = gmpy2_is_prime (2 ^ start' - 1)
  /\ forall oracle : Z -> bool,
       Mersenne_GPU.search_iteration oracle fuel known start
       = Done (known', start', oracle (2 ^ start' - 1)).
Proof.
  intros H.
  destruct (DriverMore.search_iteration_inv gmpy2_is_prime _ _ _ _ _ _ H)
    as (H1 & H2 & H3 & _ & H4).
  split; [assumption|]. split; [assumption|]. split; [assumption|].
  split; [assumption|]. intros oracle.
  unfold Mersenne_GPU.search_iteration in *.
  apply bind_Done in H. destruct H as ([v q] & Hfind & H).
  cbn [snd] in H. apply bind_Done in H. destruct H as (b & Hver & H).
  injection H as <- <- <-. rewrite Hfind. cbn [bind snd].
  unfold Mersenne_GPU.verify_mersenne_prime in *.
  destruct (mersenne q) as [M| |] eqn:EM; try discriminate.
  cbn [bind] in *. injection Hver as <-.
  assert (Hq : 0 <= q).
  { unfold mersenne, py_shl in EM. destruct (Z.ltb_spec q 0);
      [discriminate | assumption]. }
  rewrite mersenne_nonneg in EM by assumption. injection EM as <-.
  reflexivity.
Qed.

Lemma gpu_loop_keeps_rejected_witness :
  Mersenne_GPU.search_iteration (fun _ : Z => false) 16 [19] 19
    = Done ([19; 31], 31, false) /\
  ([19; 31] = [19] ++ [31] /\ 19 < 31 /\ ~ In 31 [19]
   /\ false = (fun _ : Z => false) (2 ^ 31 - 1)
   /\ forall oracle : Z -> bool,
        Mersenne_GPU.search_iteration oracle 16 [19] 19
        = Done ([19; 31], 31, oracle (2 ^ 31 - 1))).
Proof.
  assert (H : Mersenne_GPU.search_iteration (fun _ : Z => false) 16 [19] 19
              = Done ([19; 31], 31, false)) by (vm_compute; reflexivity).
  exact (conj H
    (gpu_loop_keeps_rejected (fun _ : Z => false) 16 [19] 19 [19; 31] 31
       false H)).
Defined.

(** * Termination of the candidate loops of MERSENNE.py *)

Module TerminationMore.
Import MERSENNE TrialDivision Generator LucasLehmer Scheduler.

Lemma next_candidate_even (fuel : nat) : forall known p,
  p mod 2 = 0 -> 2 < p -> next_candidate fuel known p = OutOfFuel.
Proof.
  induction fuel as [|fuel IH]; intros known p Hev Hp; [reflexivity|].
  cbn [next_candidate].
  assert (Hnp : is_prime p = false).
  { destruct (is_prime p) eqn:E; [|reflexivity].
    pose proof (is_prime_odd p E Hp). lia. }
  rewrite Hnp. cbn [negb]. rewrite orb_true_r.
  apply IH; [|lia]. Z.div_mod_to_equations. lia.
Qed.

Lemma least_true (h : Z -> bool) (n : nat) : forall p,
  h (p + Z.of_nat n) = true ->
  exists r, p <= r <= p + Z.of_nat n /\ h r = true
            /\ forall c, p <= c < r -> h c = false.
Proof.
  induction n as [|n IH]; intros p Hh.
  - exists p. replace (p + Z.of_nat 0) with p in Hh by lia.
    split; [lia|]. split; [assumption|]. intros c Hc. lia.
  - destruct (h p) eqn:E.
    + exists p. split; [lia|]. split; [assumption|]. intros c Hc. lia.
    + destruct (IH (p + 1)) as (r & Hr & Hhr & Hmin).
      { replace (p + 1 + Z.of_nat n) with (p + Z.of_nat (S n)) by lia.
        assumption. }
      exists r. split; [lia|]. split; [assumption|].
      intros c Hc. destruct (Z.eq_dec c p) as [->|N]; [assumption|].
      apply Hmin. lia.
Qed.

Lemma first_hit_exists (flag : bool) (known : list Z) (p q : Z) :
  p <= q -> q mod 2 = 1 -> is_candidate known q = true ->
  verdict flag q = true ->
  exists q', first_hit flag known p q'.
Proof.
  intros Hpq Hodd Hc Hv.
  set (h := fun r => (r mod 2 =? 1) && is_candidate known r
                     && verdict flag r).
  destruct (least_true h (Z.to_nat (q - p)) p) as (r & Hr & Hhr & Hmin).
  { replace (p + Z.of_nat (Z.to_nat (q - p))) with q by lia.
    unfold h. rewrite Hc, Hv. apply Z.eqb_eq in Hodd. now rewrite Hodd. }
  unfold h in Hhr. rewrite !andb_true_iff in Hhr.
  destruct Hhr as [[H1 H2] H3]. apply Z.eqb_eq in H1.
  exists r. split; [lia|]. split; [assumption|]. split; [assumption|].
  split; [assumption|]. intros c Hc' Hco Hcc.
  specialize (Hmin c Hc'). unfold h in Hmin.
  apply Z.eqb_eq in Hco. now rewrite Hco, Hcc in Hmin.
Qed.

End TerminationMore.

(** X21.  Candidate generation always ends: from an odd position and for
    any known list the inner [while] finds a next candidate, so a batch
    of any size is completed (there are primes beyond every bound). *)
Theorem batch_generation_terminates (known : list Z) (n : nat) (p : Z) :
  p mod 2 = 1 ->
  exists candidates p' fuel0, forall fuel, (fuel0 <= fuel)%nat ->
    MERSENNE.gen_batch fuel known n [] p = Done (candidates, p').
Proof.
  intros Hp.
  destruct (Generator.gen_batch_total known n p Hp)
    as (cs & p' & fuel0 & _ & H).
  exists cs, p', fuel0. intros fuel Hf. now apply (H fuel []).
Qed.

Lemma batch_generation_terminates_witness :
  129 mod 2 = 1 /\
  (exists candidates p' fuel0, forall fuel, (fuel0 <= fuel)%nat ->
     MERSENNE.gen_batch fuel MERSENNE.known_exponents 16 [] 129
     = Done (candidates, p')).
Proof.
  assert (H : 129 mod 2 = 1) by reflexivity.
  exact (conj H (batch_generation_terminates MERSENNE.known_exponents 16 129 H)).
Defined.

(** X23.  The odd start of the search matters: from an even position
    above 2 the inner [while] of candidate generation never ends, since
    it only visits even numbers and [is_prime] rejects them all. *)
Theorem next_candidate_diverges_on_even (known : list Z) (p : Z)
    (fuel : nat) :
  p mod 2 = 0 -> 2 < p ->
  MERSENNE.next_candidate fuel known p = OutOfFuel.
Proof.
  intros Hev Hp. now apply TerminationMore.next_candidate_even.
Qed.

Lemma next_candidate_diverges_on_even_witness :
  128 mod 2 = 0 /\ 2 < 128 /\
  MERSENNE.next_candidate 1000 MERSENNE.known_exponents 128 = OutOfFuel.
Proof.
  assert (H1 : 128 mod 2 = 0) by reflexivity.
  assert (H2 : 2 < 128) by lia.
  exact (conj H1 (conj H2
    (next_candidate_diverges_on_even MERSENNE.known_exponents 128 1000
       H1 H2))).
Defined.

(** X22.  The search of MERSENNE.py returns exactly when there is
    something to find: with at least one process it returns, for every
    large enough fuel, as soon as some odd prime above [start] outside
    the known list passes the Lucas-Lehmer test; and it returns only
    then. *)
Theorem search_returns_iff_hit_exists (has_gmpy2 : bool) (cpu_count : Z)
    (sched : nat -> list nat) (start : Z) (known : list Z)
    (num_processes : option Z) :
  1 <= MERSENNE.default_processes cpu_count num_processes ->
  (forall k, Permutation (sched k)
     (seq 0 (Z.to_nat (MERSENNE.default_processes cpu_count num_processes * 2)))) ->
  ((exists q, start < q /\ q mod 2 = 1 /\ ~ In q known /\ Z.prime q
              /\ MERSENNE.lucas_lehmer_test has_gmpy2 q = Done true)
   <-> exists r fuel0, forall fuel, (fuel0 <= fuel)%nat ->
         snd (MERSENNE.find_next_mersenne_prime has_gmpy2 cpu_count fuel
                sched start known num_processes) = Done r).
Proof.
  intros Hnp Hsched.
  pose proof (Scheduler.first_odd_above start) as Hodd. split.
  - intros (q & Hq & Hqo & Hqk & Hqp & Hqt).
    apply TrialDivision.is_prime_spec in Hqp.
    pose proof (TrialDivision.is_prime_ge_2 _ Hqp) as Hge.
    rewrite LucasLehmer.lucas_lehmer_test_nonneg in Hqt by lia.
    injection Hqt as Hqv.
    destruct (TerminationMore.first_hit_exists has_gmpy2 known
                (if (start + 1) mod 2 =? 0 then start + 1 + 1 else start + 1)
                q) as [q' Hhit]; try assumption.
    { now apply SearchMore.above_start. }
    { apply Generator.is_candidate_spec. now split. }
    destruct (Scheduler.find_loop_total has_gmpy2 known _ _ sched Hnp Hsched
                _ q' _ (Nat.le_refl _) Hodd Hhit ltac:(lia)) as [fuel0 H].
    exists (2 ^ q' - 1, q'), fuel0. intros fuel Hf.
    rewrite find_next_unfold. now apply H.
  - intros (r & fuel0 & H). specialize (H fuel0 (Nat.le_refl _)).
    rewrite find_next_unfold in H.
    destruct (Scheduler.find_loop_sound has_gmpy2 known _ _ sched Hnp Hsched
                _ _ _ _ Hodd H) as (q & -> & Hhit).
    destruct Hhit as (H1 & H2 & H3 & H4 & _).
    apply Generator.is_candidate_spec in H3. destruct H3 as [Hk Hp].
    pose proof (TrialDivision.is_prime_ge_2 _ Hp) as Hge.
    pose proof (SearchMore.start_below start) as Hlt.
    exists q. split; [lia|]. split; [assumption|]. split; [assumption|].
    split; [now apply TrialDivision.is_prime_spec|].
    rewrite LucasLehmer.lucas_lehmer_test_nonneg by lia. now f_equal.
Qed.

Lemma search_returns_iff_hit_exists_witness :
  1 <= MERSENNE.default_processes 4 (Some 2) /\
  (forall k : nat, Permutation ((fun _ : nat => seq 0 4) k)
     (seq 0 (Z.to_nat (MERSENNE.default_processes 4 (Some 2) * 2)))) /\
  ((exists q, 127 < q /\ q mod 2 = 1 /\ ~ In q MERSENNE.known_exponents
              /\ Z.prime q
              /\ MERSENNE.lucas_lehmer_test true q = Done true)
   <-> exists r fuel0, forall fuel, (fuel0 <= fuel)%nat ->
         snd (MERSENNE.find_next_mersenne_prime true 4 fuel
                (fun _ : nat => seq 0 4) 127 MERSENNE.known_exponents
                (Some 2)) = Done r).
Proof.
  assert (H1 : 1 <= MERSENNE.default_processes 4 (Some 2)) by (simpl; lia).
  assert (H2 : forall k : nat, Permutation ((fun _ : nat => seq 0 4) k)
     (seq 0 (Z.to_nat (MERSENNE.default_processes 4 (Some 2) * 2)))).
  { intros _. apply Permutation_refl. }
  exact (conj H1 (conj H2
    (search_returns_iff_hit_exists true 4 (fun _ : nat => seq 0 4) 127
       MERSENNE.known_exponents (Some 2) H1 H2))).
Defined.
